(** * Meet Scribe Pro: the caption reconciliation engine of [content.js]

    A shallow embedding of the content script and the properties of its
    transcript state machine.

    Modelling conventions.
    - JavaScript strings are sequences of code units; here they are Rocq
      [string]s, one [ascii] per code unit, which covers the code units
      below 256.  On that range the class [\s] of a regular expression and
      the characters removed by [trim] are tab, line feed, vertical tab,
      form feed, carriage return, space and the no-break space.
    - [state.lastBySpeaker] is a plain object, created by [{}], used as a
      dictionary from speaker names to texts.  Its own properties are a
      [gmap string string]; a name it does not own is looked up in
      [Object.prototype], and an assignment to [__proto__] goes to the
      setter inherited from there.  The content script runs in a world of
      its own, so [Object.prototype] holds the built-in members only.
    - [state.transcript] is an array of [{ ts, speaker, text }] objects: a
      list of records.  The objects are never shared with another holder
      (the storage and messaging APIs copy their arguments).
    - [formatTime(new Date())] reads the wall clock.  The loop of
      [processCaptions] reads it at most once per iteration, so a run of
      the loop receives [clock : nat -> string], the formatted time at
      each iteration.
    - The document is seen through what the script reads of it: the
      [div[aria-live="polite"]] elements in document order, each with its
      rendered [innerText] and its node tree. *)

From stdpp Require Import gmap strings list fin_maps.
From Stdlib Require Import Ascii.

#[local] Set Warnings "-register-all".

Local Open Scope string_scope.
Local Open Scope list_scope.

(** ** Strings *)

Module Js.

(** [\s], and the white space and line terminators of [trim]. *)
Definition isWhiteSpace (c : ascii) : bool :=
  let n := nat_of_ascii c in
  Nat.eqb n 9 || Nat.eqb n 10 || Nat.eqb n 11 || Nat.eqb n 12 || Nat.eqb n 13
  || Nat.eqb n 32 || Nat.eqb n 160.

Fixpoint trimStart (s : string) : string :=
  match s with
  | EmptyString => EmptyString
  | String c r => if isWhiteSpace c then trimStart r else s
  end.

Fixpoint trimEnd (s : string) : string :=
  match s with
  | EmptyString => EmptyString
  | String c r =>
      match trimEnd r with
      | EmptyString => if isWhiteSpace c then EmptyString else String c EmptyString
      | r' => String c r'
      end
  end.

(** [s.trim()] *)
Definition trim (s : string) : string := trimEnd (trimStart s).

(** [s.replace(/\s+/g, " ")]: every maximal run of white space becomes
    one space.  [inRun] tells that the previous code unit was white
    space, whose run has already been replaced. *)
Fixpoint collapseFrom (inRun : bool) (s : string) : string :=
  match s with
  | EmptyString => EmptyString
  | String c r =>
      if isWhiteSpace c
      then (if inRun then collapseFrom true r else String " " (collapseFrom true r))
      else String c (collapseFrom false r)
  end.

Definition collapseWhiteSpace (s : string) : string := collapseFrom false s.

(** [parts.join(sep)] *)
Fixpoint join (sep : string) (parts : list string) : string :=
  match parts with
  | [] => EmptyString
  | [p] => p
  | p :: rest => p +:+ sep +:+ join sep rest
  end.

(** [text.startsWith(prev)] *)
Definition startsWith (text prev : string) : bool := String.prefix prev text.

(** Truthiness of a string: the empty string is falsy. *)
Definition truthy (s : string) : bool := negb (bool_decide (s = EmptyString)).

End Js.

(** ** Data model *)

(** An element of [state.transcript]. *)
Record TranscriptEntry : Type := mkEntry {
  ts : string;
  speaker : string;
  text : string
}.

(** An element of the result of [parseCaptions]: [{ speaker, text }]. *)
Record Parsed : Type := mkParsed {
  p_speaker : string;
  p_text : string
}.

(** The DOM as the script reads it. *)
Inductive Node : Type :=
  | TextNode (data : string)
  | Element (childNodes : list Node).

(** One result of [document.querySelectorAll('div[aria-live="polite"]')]. *)
Record LiveRegion : Type := mkRegion {
  innerText : string;
  root : Node
}.

Definition Document : Type := list LiveRegion.

(** What [state.observer] watches. *)
Inductive Observer : Type :=
  | NoObserver
  | BodyObserver
  | ContainerObserver (container : LiveRegion).

(** The [state] object, without [debounceTimer]. *)
Record State : Type := mkState {
  transcript : list TranscriptEntry;
  lastBySpeaker : gmap string string;
  observer : Observer;
  storageFlushTimer : bool;
  meetingId : option string
}.

(** The two keys the script keeps in [chrome.storage.local]. *)
Record Storage : Type := mkStorage {
  current_meeting_transcript : option (list TranscriptEntry);
  current_meeting_id : option string
}.

(** The content script's world: [state], the module variable
    [narrowObserverAttached] and the extension's storage area. *)
Record Page : Type := mkPage {
  state : State;
  narrowObserverAttached : bool;
  storage : Storage
}.

Definition set_transcript (tr : list TranscriptEntry) (s : State) : State :=
  mkState tr (lastBySpeaker s) (observer s) (storageFlushTimer s) (meetingId s).

Definition set_lastBySpeaker (m : gmap string string) (s : State) : State :=
  mkState (transcript s) m (observer s) (storageFlushTimer s) (meetingId s).

Definition set_observer (o : Observer) (s : State) : State :=
  mkState (transcript s) (lastBySpeaker s) o (storageFlushTimer s) (meetingId s).

Definition set_storageFlushTimer (b : bool) (s : State) : State :=
  mkState (transcript s) (lastBySpeaker s) (observer s) b (meetingId s).

Definition set_meetingId (i : option string) (s : State) : State :=
  mkState (transcript s) (lastBySpeaker s) (observer s) (storageFlushTimer s) i.

(** The object literal of [const state = { ... }]. *)
Definition initialState : State :=
  mkState [] ∅ NoObserver false None.

(** ** Helpers *)

Definition isLetter (c : ascii) : bool :=
  let n := nat_of_ascii c in
  (Nat.leb 65 n && Nat.leb n 90) || (Nat.leb 97 n && Nat.leb n 122).

(** The longest run of letters at the head of [s], and what follows it. *)
Fixpoint spanLetters (s : string) : string * string :=
  match s with
  | EmptyString => (EmptyString, EmptyString)
  | String c r =>
      if isLetter c
      then let '(run, rest) := spanLetters r in (String c run, rest)
      else (EmptyString, s)
  end.

(** The group [([a-z]+-[a-z]+-[a-z]+)] of the pattern, flag [i], matched
    at the head of [s].  A run of letters can only be followed by a hyphen
    when it is the longest one, so the greedy match is the only one. *)
Definition matchMeetingCode (s : string) : option string :=
  let '(a, r1) := spanLetters s in
  if negb (Js.truthy a) then None
  else match r1 with
       | String "-" r1' =>
           let '(b, r2) := spanLetters r1' in
           if negb (Js.truthy b) then None
           else match r2 with
                | String "-" r2' =>
                    let '(c, _) := spanLetters r2' in
                    if negb (Js.truthy c) then None
                    else Some (a +:+ "-" +:+ b +:+ "-" +:+ c)
                | _ => None
                end
       | _ => None
       end.

(** [pathname.match(/\/([a-z]+-[a-z]+-[a-z]+)/i)]: the group of the
    leftmost match. *)
Fixpoint findMeetingCode (pathname : string) : option string :=
  match pathname with
  | EmptyString => None
  | String c r =>
      if bool_decide (c = "/"%char)
      then match matchMeetingCode r with
           | Some code => Some code
           | None => findMeetingCode r
           end
      else findMeetingCode r
  end.

(** [getMeetingId], on [location.pathname]. *)
Definition getMeetingId (pathname : string) : string :=
  match findMeetingCode pathname with
  | Some code => code
  | None => pathname
  end.

(** [scheduleStorageFlush]: arms the timer unless it is already armed. *)
Definition scheduleStorageFlush (s : State) : State :=
  if storageFlushTimer s then s else set_storageFlushTimer true s.

(** The callback of that timer. *)
Definition onStorageFlushTimer (w : Page) : Page :=
  if storageFlushTimer (state w)
  then mkPage (set_storageFlushTimer false (state w)) (narrowObserverAttached w)
              (mkStorage (Some (transcript (state w))) (meetingId (state w)))
  else w.

(** ** Caption container detection *)

(** [getCaptionContainer]: the first live region whose rendered text is
    not blank. *)
Definition getCaptionContainer (doc : Document) : option LiveRegion :=
  List.find
    (fun el => Js.truthy (innerText el)
               && Nat.ltb 0 (String.length (Js.trim (innerText el))))
    doc.

(** ** Caption parsing *)

Definition isElement (n : Node) : bool :=
  match n with Element _ => true | TextNode _ => false end.

(** [node.children]: the child nodes that are elements. *)
Definition children (n : Node) : list Node :=
  match n with
  | Element cs => List.filter isElement cs
  | TextNode _ => []
  end.

(** [node.textContent]: the text of all descendants, in document order. *)
Fixpoint textContent (n : Node) : string :=
  match n with
  | TextNode d => d
  | Element cs =>
      (fix concat (l : list Node) : string :=
         match l with
         | [] => EmptyString
         | c :: r => textContent c +:+ concat r
         end) cs
  end.

(** The body of the loop over the blocks: [Some e] when the block pushes
    [e] on [results], [None] when it pushes nothing. *)
Definition parseBlock (block : Node) : option Parsed :=
  let cs := children block in
  if Nat.ltb (length cs) 2 then None
  else match cs with
       | [] => None
       | speakerEl :: others =>
           let trimmed := Js.trim (textContent speakerEl) in
           let speakerName := if Js.truthy trimmed then trimmed else "Unknown" in
           let textParts := Js.join " " (textContent <$> others) in
           let txt := Js.trim (Js.collapseWhiteSpace textParts) in
           if Js.truthy txt then Some (mkParsed speakerName txt) else None
       end.

Fixpoint parseBlocks (blocks : list Node) (results : list Parsed) : list Parsed :=
  match blocks with
  | [] => results
  | block :: rest =>
      parseBlocks rest
        (match parseBlock block with
         | Some e => results ++ [e]
         | None => results
         end)
  end.

(** [parseCaptions] *)
Definition parseCaptions (container : Node) : list Parsed :=
  let results := parseBlocks (children container) [] in
  if Nat.eqb (length results) 0
  then
    let fallback := Js.trim (Js.collapseWhiteSpace (textContent container)) in
    if Js.truthy fallback then results ++ [mkParsed "System" fallback] else results
  else results.

(** ** Core processing *)

(** What [state.lastBySpeaker[speaker]] evaluates to: a text the object
    owns, or what [Object.prototype] has under that name. *)
Inductive JsValue : Type :=
  | JsUndefined
  | JsString (s : string)
  | JsFunction (name : string)
  | JsObjectPrototype.

#[global] Instance JsValue_eq_dec : EqDecision JsValue.
Proof. solve_decision. Defined.

(** The data properties of [Object.prototype], each with the name of the
    built-in function it holds. *)
Definition objectPrototypeMethods : gmap string string :=
  list_to_map
    [("constructor", "Object");
     ("__defineGetter__", "__defineGetter__");
     ("__defineSetter__", "__defineSetter__");
     ("hasOwnProperty", "hasOwnProperty");
     ("__lookupGetter__", "__lookupGetter__");
     ("__lookupSetter__", "__lookupSetter__");
     ("isPrototypeOf", "isPrototypeOf");
     ("propertyIsEnumerable", "propertyIsEnumerable");
     ("toString", "toString");
     ("valueOf", "valueOf");
     ("toLocaleString", "toLocaleString")].

(** The value found in [Object.prototype]: the getter of the accessor
    [__proto__] returns the prototype of the object, [Object.prototype]
    itself. *)
Definition inheritedProperty (key : string) : JsValue :=
  if bool_decide (key = "__proto__") then JsObjectPrototype
  else match objectPrototypeMethods !! key with
       | Some name => JsFunction name
       | None => JsUndefined
       end.

(** [obj[key]] *)
Definition getProperty (own : gmap string string) (key : string) : JsValue :=
  match own !! key with
  | Some v => JsString v
  | None => inheritedProperty key
  end.

(** [obj[key] = v] with a string [v]: an own property is updated, and a
    new one is created unless the name is [__proto__], whose inherited
    setter ignores a value that is neither an object nor [null]. *)
Definition setProperty (own : gmap string string) (key v : string) : gmap string string :=
  match own !! key with
  | Some _ => <[key := v]> own
  | None => if bool_decide (key = "__proto__") then own else <[key := v]> own
  end.

(** [String(v)], as [startsWith] applies it to its argument; a built-in
    function prints as Chrome prints it. *)
Definition valueToString (v : JsValue) : string :=
  match v with
  | JsUndefined => "undefined"
  | JsString s => s
  | JsFunction name => "function " +:+ name +:+ "() { [native code] }"
  | JsObjectPrototype => "[object Object]"
  end.

(** Truthiness: [undefined] and the empty string are falsy. *)
Definition valueTruthy (v : JsValue) : bool :=
  match v with
  | JsUndefined => false
  | JsString s => Js.truthy s
  | JsFunction _ => true
  | JsObjectPrototype => true
  end.

(** The test of [processCaptions]:
    [prev && transcript.length > 0 && text.startsWith(prev)
     && transcript[transcript.length - 1].speaker === speaker]. *)
Definition isContinuation (s : State) (spk txt : string) : bool :=
  let prev := getProperty (lastBySpeaker s) spk in
  valueTruthy prev
  && Nat.ltb 0 (length (transcript s))
  && Js.startsWith txt (valueToString prev)
  && match transcript s !! (length (transcript s) - 1) with
     | Some l => bool_decide (speaker l = spk)
     | None => false
     end.

(** [last.text = text; last.ts = now] on the object at the last index. *)
Definition amendLast (now txt : string) (tr : list TranscriptEntry) : list TranscriptEntry :=
  alter (fun l => mkEntry now (speaker l) txt) (length tr - 1) tr.

(** One iteration of the [for ... of entries] loop; the boolean tells
    whether the iteration reached [changed = true]. *)
Definition processEntry (now : string) (s : State) (e : Parsed) : State * bool :=
  let spk := p_speaker e in
  let txt := p_text e in
  let prev := getProperty (lastBySpeaker s) spk in
  if negb (Js.truthy txt) || bool_decide (prev = JsString txt) then (s, false)
  else
    let tr :=
      if isContinuation s spk txt
      then amendLast now txt (transcript s)
      else transcript s ++ [mkEntry now spk txt] in
    (set_lastBySpeaker (setProperty (lastBySpeaker s) spk txt) (set_transcript tr s), true).

(** The loop, from iteration [i] on, with the current value of [changed]. *)
Fixpoint reconcileLoop (clock : nat -> string) (i : nat) (entries : list Parsed)
    (s : State) (changed : bool) : State * bool :=
  match entries with
  | [] => (s, changed)
  | e :: rest =>
      let '(s', c) := processEntry (clock i) s e in
      reconcileLoop clock (S i) rest s' (changed || c)
  end.

(** Lines 135 to 167 of [processCaptions]: the loop over the parsed
    entries and the flush scheduled when something changed. *)
Definition reconcile (clock : nat -> string) (entries : list Parsed) (s : State)
    : State * bool :=
  let '(s', changed) := reconcileLoop clock 0 entries s false in
  (if changed then scheduleStorageFlush s' else s', changed).

(** [processCaptions] *)
Definition processCaptions (clock : nat -> string) (doc : Document) (s : State) : State :=
  match getCaptionContainer doc with
  | None => s
  | Some container => (reconcile clock (parseCaptions (root container)) s).1
  end.

(** ** Observer lifecycle *)

(** [tryNarrowObserver] *)
Definition tryNarrowObserver (doc : Document) (w : Page) : Page :=
  if narrowObserverAttached w then w
  else match getCaptionContainer doc with
       | None => w
       | Some container =>
           mkPage (set_observer (ContainerObserver container) (state w)) true (storage w)
       end.

(** The callback of the observer that [init] puts on [document.body];
    the debounce timer it restarts is not modelled. *)
Definition onBodyMutation (doc : Document) (w : Page) : Page :=
  match observer (state w) with
  | BodyObserver => tryNarrowObserver doc w
  | _ => w
  end.

(** The synchronous part of [init]. *)
Definition init (pathname : string) (doc : Document) (w : Page) : Page :=
  let s1 := set_meetingId (Some (getMeetingId pathname)) (state w) in
  let s2 := set_observer BodyObserver s1 in
  tryNarrowObserver doc (mkPage s2 (narrowObserverAttached w) (storage w)).

(** The callback that [init] gives to [chrome.storage.local.get]; [data]
    holds the two keys as read.  A missing key is [undefined], which is
    not [===] to any meeting id. *)
Definition onStorageRead (data : Storage) (w : Page) : Page :=
  match current_meeting_id data, meetingId (state w), current_meeting_transcript data with
  | Some stored, Some current, Some tr =>
      if bool_decide (stored = current)
      then mkPage (set_transcript tr (state w)) (narrowObserverAttached w) (storage w)
      else w
  | _, _, _ => w
  end.

(** The page right after the script has loaded: [init], then the storage
    callback, which runs before the first debounced [processCaptions]. *)
Definition startup (pathname : string) (doc : Document) (stored : Storage) : Page :=
  onStorageRead stored (init pathname doc (mkPage initialState false stored)).

(** [handleNavigation], with the current [location.pathname]. *)
Definition handleNavigation (pathname : string) (doc : Document) (w : Page) : Page :=
  let newId := getMeetingId pathname in
  if bool_decide (Some newId = meetingId (state w)) then w
  else
    let s1 := set_transcript [] (state w) in
    let s2 := set_lastBySpeaker ∅ s1 in
    let s3 := set_meetingId (Some newId) s2 in
    tryNarrowObserver doc (mkPage s3 false (mkStorage None None)).

(** ** Message handler *)

(** The [clear] request. *)
Definition onClear (w : Page) : Page :=
  let s1 := set_transcript [] (state w) in
  let s2 := set_lastBySpeaker ∅ s1 in
  mkPage s2 (narrowObserverAttached w)
         (mkStorage None (current_meeting_id (storage w))).

(** The [getTranscript] request: the response object. *)
Definition onGetTranscript (w : Page) : list TranscriptEntry * option string :=
  (transcript (state w), meetingId (state w)).

(** ** Runs of the script *)

Inductive Event : Type :=
  | EvReconcile (clock : nat -> string) (entries : list Parsed)
  | EvCaptions (clock : nat -> string) (doc : Document)
  | EvMutation (doc : Document)
  | EvNavigation (pathname : string) (doc : Document)
  | EvClear
  | EvFlush.

Definition with_state (s : State) (w : Page) : Page :=
  mkPage s (narrowObserverAttached w) (storage w).

Definition handle (w : Page) (ev : Event) : Page :=
  match ev with
  | EvReconcile clock entries => with_state (reconcile clock entries (state w)).1 w
  | EvCaptions clock doc => with_state (processCaptions clock doc (state w)) w
  | EvMutation doc => onBodyMutation doc w
  | EvNavigation pathname doc => handleNavigation pathname doc w
  | EvClear => onClear w
  | EvFlush => onStorageFlushTimer w
  end.

Definition run (w : Page) (evs : list Event) : Page := foldl handle w evs.

(** Speaker and text of the entries, without the time stamps. *)
Definition lines (tr : list TranscriptEntry) : list (string * string) :=
  (fun e => (speaker e, text e)) <$> tr.

(** The events that reset the session: the [clear] request and a
    navigation check that finds another meeting id. *)
Definition isReset (w : Page) (ev : Event) : bool :=
  match ev with
  | EvClear => true
  | EvNavigation pathname _ =>
      negb (bool_decide (Some (getMeetingId pathname) = meetingId (state w)))
  | _ => false
  end.

(** [tr'] keeps the history of [tr]: the entries of [tr] before its last
    one are where they were, no entry is dropped, and every position keeps
    its speaker. *)
Definition keepsHistory (tr tr' : list TranscriptEntry) : Prop :=
  length tr <= length tr'
  /\ take (length tr - 1) tr `prefix_of` tr'
  /\ (speaker <$> tr) `prefix_of` (speaker <$> tr').

(** [keepsHistory], index by index. *)
Definition frame (tr tr' : list TranscriptEntry) : Prop :=
  length tr <= length tr'
  /\ (forall i e, i < length tr - 1 -> tr !! i = Some e -> tr' !! i = Some e)
  /\ (forall i e, tr !! i = Some e ->
        exists e', tr' !! i = Some e' /\ speaker e' = speaker e).

(** A snapshot in which the blocks of one speaker that carry a text all
    carry the same text; in particular one with one block per speaker. *)
Definition oneTextPerSpeaker (entries : list Parsed) : Prop :=
  forall e1 e2, e1 ∈ entries -> e2 ∈ entries ->
    p_speaker e1 = p_speaker e2 ->
    p_text e1 ≠ EmptyString -> p_text e2 ≠ EmptyString ->
    p_text e1 = p_text e2.

(** The texts remembered in [m] are those of the entries [es] that carry
    one. *)
Definition remembers (m : gmap string string) (es : list Parsed) : Prop :=
  forall e, e ∈ es -> p_text e ≠ EmptyString -> m !! p_speaker e = Some (p_text e).

(** The text of the most recent entry of [S] in the transcript. *)
Definition lastTextOf (S : string) (tr : list TranscriptEntry) : option string :=
  text <$> last (filter (fun e => speaker e = S) tr).

(** The speakers for whom a snapshot carries a text. *)
Definition spokenIn (entries : list Parsed) : gset string :=
  list_to_set (p_speaker <$> filter (fun e => p_text e ≠ EmptyString) entries).

(** The speakers processed by the loop since the last reset, after one
    more event. *)
Definition spokenStep (w : Page) (spk : gset string) (ev : Event) : gset string :=
  if isReset w ev then ∅
  else match ev with
       | EvReconcile _ entries => spk ∪ spokenIn entries
       | EvCaptions _ doc =>
           match getCaptionContainer doc with
           | Some container => spk ∪ spokenIn (parseCaptions (root container))
           | None => spk
           end
       | _ => spk
       end.

Fixpoint spokenSince (w : Page) (spk : gset string) (evs : list Event) : gset string :=
  match evs with
  | [] => spk
  | ev :: rest => spokenSince (handle w ev) (spokenStep w spk ev) rest
  end.

(** Every remembered text is not empty and is the text of the most recent
    entry of its speaker. *)
Definition coupled (s : State) : Prop :=
  forall S t, lastBySpeaker s !! S = Some t ->
    t ≠ EmptyString /\ lastTextOf S (transcript s) = Some t.

(** Two neighbours in the transcript, by the same speaker, the text of the
    first being a strict prefix of the text of the second. *)
Definition unmergedContinuation (tr : list TranscriptEntry) : Prop :=
  exists i e1 e2,
    tr !! i = Some e1 /\ tr !! (S i) = Some e2
    /\ speaker e1 = speaker e2
    /\ Js.startsWith (text e2) (text e1) = true /\ text e1 ≠ text e2.

(** The entries a pass appends when every block is a first utterance:
    block [k] of the snapshot, met at iteration [i + k]. *)
Fixpoint stamped (clock : nat -> string) (i : nat) (entries : list Parsed)
    : list TranscriptEntry :=
  match entries with
  | [] => []
  | e :: rest => mkEntry (clock i) (p_speaker e) (p_text e) :: stamped clock (S i) rest
  end.

(** No transcript line is empty. *)
Definition noEmptyText (tr : list TranscriptEntry) : Prop :=
  Forall (fun e => text e ≠ EmptyString) tr.

(** The size of a session for the progress of a pass: the number of
    entries, then the length of the text remembered for the speaker of the
    last entry. *)
Definition tailLength (s : State) : nat :=
  match last (transcript s) with
  | Some l =>
      match lastBySpeaker s !! speaker l with
      | Some prev => String.length prev
      | None => 0
      end
  | None => 0
  end.

Definition grows (s s' : State) : Prop :=
  length (transcript s) < length (transcript s')
  \/ (length (transcript s) = length (transcript s') /\ tailLength s < tailLength s').

(** White space occurs in [s] as single spaces only; with [afterSpace],
    not at the head of [s] either. *)
Fixpoint singleSpaced (afterSpace : bool) (s : string) : bool :=
  match s with
  | EmptyString => true
  | String c r =>
      if Js.isWhiteSpace c
      then bool_decide (c = " "%char) && negb afterSpace && singleSpaced true r
      else singleSpaced false r
  end.

Fixpoint endsWithWhiteSpace (s : string) : bool :=
  match s with
  | EmptyString => false
  | String c EmptyString => Js.isWhiteSpace c
  | String _ r => endsWithWhiteSpace r
  end.

(** A text made of words separated by single spaces. *)
Definition normalised (s : string) : Prop :=
  singleSpaced true s = true /\ endsWithWhiteSpace s = false.

(** A live region without rendered text, or with white space only. *)
Definition blank (el : LiveRegion) : Prop :=
  Js.trim (innerText el) = EmptyString.

(** The result of the fallback branch of [parseCaptions]. *)
Definition systemFallback (container : Node) : list Parsed :=
  let fallback := Js.trim (Js.collapseWhiteSpace (textContent container)) in
  if Js.truthy fallback then [mkParsed "System" fallback] else [].

(** An event that leaves the meeting id alone: anything but a navigation
    check that derives another id. *)
Definition sameMeeting (w : Page) (ev : Event) : Prop :=
  match ev with
  | EvNavigation pathname _ => Some (getMeetingId pathname) = meetingId (state w)
  | _ => True
  end.

(** The latch is set only while a caption container is observed. *)
Definition latchSound (w : Page) : Prop :=
  observer (state w) ≠ NoObserver
  /\ (narrowObserverAttached w = true ->
      exists container,
        observer (state w) = ContainerObserver container /\ ~ blank container).

Fixpoint allLetters (s : string) : bool :=
  match s with
  | EmptyString => true
  | String c r => isLetter c && allLetters r
  end.

Definition startsWithLetter (s : string) : bool :=
  match s with
  | EmptyString => false
  | String c _ => isLetter c
  end.

(** A part of a meeting code: one letter or more. *)
Definition codePart (a : string) : Prop :=
  a ≠ EmptyString /\ allLetters a = true.

(** Every entry of [tr] is still at its index in [tr'], with its speaker
    and with a text that starts with the old one. *)
Definition textsGrow (tr tr' : list TranscriptEntry) : Prop :=
  forall i e, tr !! i = Some e ->
    exists e', tr' !! i = Some e' /\ speaker e' = speaker e
               /\ Js.startsWith (text e') (text e) = true.

(** ** The popup's text export *)

Definition lineFeed : string := String (ascii_of_nat 10) EmptyString.

(** The template literal of [formatTranscript]. *)
Definition formatLine (e : TranscriptEntry) : string :=
  "[" +:+ ts e +:+ "] " +:+ speaker e +:+ ": " +:+ text e.

(** [formatTranscript] of the popup: one formatted entry per line. *)
Definition formatTranscript (tr : list TranscriptEntry) : string :=
  Js.join lineFeed (formatLine <$> tr).

Fixpoint countLineFeeds (s : string) : nat :=
  match s with
  | EmptyString => 0
  | String c r => (if Nat.eqb (nat_of_ascii c) 10 then 1 else 0) + countLineFeeds r
  end.

(** * Properties *)

(** ** The model on sample inputs *)

Example getMeetingId_code : getMeetingId "/abc-defg-hij" = "abc-defg-hij".
Proof. reflexivity. Qed.

Example getMeetingId_no_code : getMeetingId "/landing" = "/landing".
Proof. reflexivity. Qed.

Example getMeetingId_leftmost : getMeetingId "/a-b/abc-defg-hij/x" = "abc-defg-hij".
Proof. reflexivity. Qed.

Example collapse_then_trim :
  Js.trim (Js.collapseWhiteSpace "  Hi   there  ") = "Hi there".
Proof. reflexivity. Qed.

(** Two well-formed blocks, a block with an empty label, a block with one
    child and a block with a blank text. *)
Example parseCaptions_blocks :
  parseCaptions
    (Element
       [Element [Element [TextNode " Alice "];
                 Element [Element [TextNode "Hi "]; Element [TextNode "there"]];
                 Element [TextNode "now"]];
        Element [Element [TextNode ""]; Element [TextNode "Hey"]];
        Element [Element [TextNode "X"]];
        Element [Element [TextNode "Carl"]; Element [TextNode "  "]]])
  = [mkParsed "Alice" "Hi there now"; mkParsed "Unknown" "Hey"].
Proof. reflexivity. Qed.

Example getCaptionContainer_first_with_text :
  getCaptionContainer
    [mkRegion "" (Element []); mkRegion "   " (Element []);
     mkRegion "Ann Hi" (Element [TextNode "Ann Hi"])]
  = Some (mkRegion "Ann Hi" (Element [TextNode "Ann Hi"])).
Proof. reflexivity. Qed.

(** A transcript restored at start comes without remembered texts. *)
Example startup_restores :
  let w := startup "/abc-defg-hij" []
             (mkStorage (Some [mkEntry "09:59:00" "Ann" "Hi"]) (Some "abc-defg-hij")) in
  transcript (state w) = [mkEntry "09:59:00" "Ann" "Hi"]
  /\ lastBySpeaker (state w) = ∅
  /\ meetingId (state w) = Some "abc-defg-hij".
Proof. repeat split. Qed.

Example startup_other_meeting :
  transcript (state (startup "/abc-defg-hij" []
     (mkStorage (Some [mkEntry "09:59:00" "Ann" "Hi"]) (Some "xyz-uvwx-rst")))) = [].
Proof. reflexivity. Qed.

(** After such a restore the first caption of the restored speaker is
    appended, even when it continues the restored line. *)
Example restore_then_caption :
  let w := run (startup "/abc-defg-hij" []
                  (mkStorage (Some [mkEntry "09:59:00" "Ann" "Hi"]) (Some "abc-defg-hij")))
               [EvReconcile (fun _ => "10:00:00") [mkParsed "Ann" "Hi there"]] in
  transcript (state w)
  = [mkEntry "09:59:00" "Ann" "Hi"; mkEntry "10:00:00" "Ann" "Hi there"].
Proof. vm_compute. reflexivity. Qed.

(** The speaker object is a plain object.  A name of a member of
    [Object.prototype] is found there until the object owns it, and
    [__proto__] is never owned. *)
Example getProperty_plain_object :
  getProperty ∅ "Ann" = JsUndefined
  /\ getProperty ∅ "toString" = JsFunction "toString"
  /\ getProperty ∅ "constructor" = JsFunction "Object"
  /\ getProperty ∅ "__proto__" = JsObjectPrototype
  /\ getProperty (setProperty ∅ "toString" "Hi") "toString" = JsString "Hi"
  /\ getProperty (setProperty ∅ "__proto__" "Hi") "__proto__" = JsObjectPrototype.
Proof. repeat split. Qed.

(** After a restore of a line by a speaker named "toString", a text that
    starts with the printed form of the inherited function passes the
    continuation test: the restored entry is rewritten. *)
Example restored_toString_amended :
  let w := run (startup "/abc-defg-hij" []
                  (mkStorage (Some [mkEntry "09:59:00" "toString" "Hello"])
                     (Some "abc-defg-hij")))
               [EvReconcile (fun _ => "10:00:00")
                  [mkParsed "toString" "function toString() { [native code] } x"]] in
  transcript (state w)
  = [mkEntry "10:00:00" "toString" "function toString() { [native code] } x"].
Proof. vm_compute. reflexivity. Qed.

(** With the last entry by a speaker named "__proto__", a text that starts
    with the printed form of [Object.prototype] rewrites that entry, and
    nothing is remembered. *)
Example proto_last_entry_amended :
  let s := mkState [mkEntry "09:59:00" "__proto__" "x"] ∅ NoObserver false
             (Some "abc-defg-hij") in
  let r := reconcile (fun _ => "10:00:00") [mkParsed "__proto__" "[object Object] y"] s in
  transcript r.1 = [mkEntry "10:00:00" "__proto__" "[object Object] y"]
  /\ lastBySpeaker r.1 = ∅
  /\ r.2 = true.
Proof. repeat split. Qed.

(** ** The end-to-end scenario *)

(** C1: from the empty session, the four snapshots Alice "Hi", Alice
    "Hi there", Bob "Hey", Alice "Hi there everyone" leave exactly the three
    entries Alice "Hi there", Bob "Hey", Alice "Hi there everyone", in this
    order, whatever the clock shows. *)
Theorem end_to_end_scenario (c1 c2 c3 c4 : nat -> string) :
  let s1 := (reconcile c1 [mkParsed "Alice" "Hi"] initialState).1 in
  let s2 := (reconcile c2 [mkParsed "Alice" "Hi there"] s1).1 in
  let s3 := (reconcile c3 [mkParsed "Bob" "Hey"] s2).1 in
  let s4 := (reconcile c4 [mkParsed "Alice" "Hi there everyone"] s3).1 in
  length (transcript s4) = 3
  /\ lines (transcript s4)
     = [("Alice", "Hi there"); ("Bob", "Hey"); ("Alice", "Hi there everyone")]
  /\ transcript s4
     = [mkEntry (c2 0) "Alice" "Hi there"; mkEntry (c3 0) "Bob" "Hey";
        mkEntry (c4 0) "Alice" "Hi there everyone"].
Proof.
  cbv zeta. vm_compute. auto.
Qed.

(** ** The loop body, case by case *)

Lemma truthy_true (s : string) : Js.truthy s = true <-> s ≠ EmptyString.
Proof.
  unfold Js.truthy. rewrite negb_true_iff, bool_decide_eq_false. tauto.
Qed.

Lemma truthy_false (s : string) : Js.truthy s = false <-> s = EmptyString.
Proof.
  unfold Js.truthy. rewrite negb_false_iff, bool_decide_eq_true. tauto.
Qed.

(** *** Reading and writing the speaker object *)

Lemma inheritedProperty_not_string key v : inheritedProperty key ≠ JsString v.
Proof.
  unfold inheritedProperty. destruct (bool_decide (key = "__proto__")); [discriminate |].
  destruct (objectPrototypeMethods !! key); discriminate.
Qed.

Lemma getProperty_own own key v : own !! key = Some v -> getProperty own key = JsString v.
Proof. intros H. unfold getProperty. rewrite H. reflexivity. Qed.

Lemma getProperty_string own key v : getProperty own key = JsString v <-> own !! key = Some v.
Proof.
  split; [| apply getProperty_own].
  unfold getProperty. destruct (own !! key) as [x |].
  - intros [= ->]. reflexivity.
  - intros H. exfalso. exact (inheritedProperty_not_string key v H).
Qed.

Lemma getProperty_undefined own key :
  getProperty own key = JsUndefined ->
  own !! key = None /\ inheritedProperty key = JsUndefined /\ key ≠ "__proto__".
Proof.
  unfold getProperty. destruct (own !! key); [discriminate |].
  intros H. repeat split; [exact H |]. intros ->. discriminate H.
Qed.

Lemma setProperty_insert own key v :
  key ≠ "__proto__" \/ is_Some (own !! key) -> setProperty own key v = <[key := v]> own.
Proof.
  unfold setProperty. intros [Hne | [x Hx]].
  - destruct (own !! key); [reflexivity |].
    rewrite bool_decide_eq_false_2 by exact Hne. reflexivity.
  - rewrite Hx. reflexivity.
Qed.

Lemma setProperty_swallowed own v :
  own !! "__proto__" = None -> setProperty own "__proto__" v = own.
Proof. unfold setProperty. intros ->. reflexivity. Qed.

Lemma setProperty_cases own key v :
  setProperty own key v = <[key := v]> own
  \/ (key = "__proto__" /\ own !! key = None /\ setProperty own key v = own).
Proof.
  unfold setProperty. destruct (own !! key); [left; reflexivity |].
  destruct (bool_decide (key = "__proto__")) eqn:Hk; [right | left; reflexivity].
  apply bool_decide_eq_true in Hk. auto.
Qed.

Lemma lookup_setProperty_ne own key v other :
  key ≠ other -> setProperty own key v !! other = own !! other.
Proof.
  intros Hne. destruct (setProperty_cases own key v) as [-> | (_ & _ & ->)];
    [apply lookup_insert_ne; exact Hne | reflexivity].
Qed.

Lemma lookup_setProperty_Some own key v other t :
  setProperty own key v !! other = Some t ->
  (key = other /\ t = v) \/ (key ≠ other /\ own !! other = Some t).
Proof.
  destruct (decide (key = other)) as [<- | Hne].
  - destruct (setProperty_cases own key v) as [-> | (_ & Hnone & ->)].
    + rewrite lookup_insert_eq. intros [= <-]. left. auto.
    + rewrite Hnone. discriminate.
  - rewrite lookup_setProperty_ne by exact Hne. right. auto.
Qed.

Lemma getProperty_setProperty_ne own key v other :
  key ≠ other -> getProperty (setProperty own key v) other = getProperty own other.
Proof.
  intros Hne. unfold getProperty. rewrite lookup_setProperty_ne by exact Hne. reflexivity.
Qed.

(** *** The two ways through the loop body *)

(** Nothing new for this speaker: the iteration is skipped. *)
Lemma processEntry_skip now s e :
  p_text e = EmptyString \/ lastBySpeaker s !! p_speaker e = Some (p_text e) ->
  processEntry now s e = (s, false).
Proof.
  intros H. unfold processEntry.
  destruct H as [H | H].
  - apply truthy_false in H. rewrite H. reflexivity.
  - rewrite (getProperty_own _ _ _ H).
    rewrite bool_decide_eq_true_2 by reflexivity. rewrite orb_true_r. reflexivity.
Qed.

Lemma processEntry_new now s e :
  p_text e ≠ EmptyString ->
  lastBySpeaker s !! p_speaker e ≠ Some (p_text e) ->
  processEntry now s e =
    (set_lastBySpeaker (setProperty (lastBySpeaker s) (p_speaker e) (p_text e))
       (set_transcript
          (if isContinuation s (p_speaker e) (p_text e)
           then amendLast now (p_text e) (transcript s)
           else transcript s ++ [mkEntry now (p_speaker e) (p_text e)]) s),
     true).
Proof.
  intros Ht Hp. unfold processEntry.
  apply truthy_true in Ht. rewrite Ht.
  rewrite bool_decide_eq_false_2; [reflexivity |].
  intros Heq. apply Hp. apply getProperty_string. exact Heq.
Qed.

(** The last index of a non-empty array. *)
Lemma lookup_last_index {A} (front : list A) (l : A) :
  (front ++ [l]) !! (length (front ++ [l]) - 1) = Some l.
Proof.
  rewrite length_app. simpl.
  replace (length front + 1 - 1) with (length front) by lia.
  rewrite lookup_app_r by lia. rewrite Nat.sub_diag. reflexivity.
Qed.

Lemma amendLast_snoc now txt front l :
  amendLast now txt (front ++ [l]) = front ++ [mkEntry now (speaker l) txt].
Proof.
  unfold amendLast. rewrite length_app. simpl.
  replace (length front + 1 - 1) with (length front + 0) by lia.
  rewrite alter_app_r. reflexivity.
Qed.

Lemma snoc_cases {A} (l : list A) : l = [] \/ exists front x, l = front ++ [x].
Proof.
  destruct l as [| a l] using rev_ind; [left | right]; eauto.
Qed.

(** What the continuation test says about the state. *)
Lemma isContinuation_true s spk txt :
  isContinuation s spk txt = true <->
  valueTruthy (getProperty (lastBySpeaker s) spk) = true
  /\ String.prefix (valueToString (getProperty (lastBySpeaker s) spk)) txt = true
  /\ exists front l, transcript s = front ++ [l] /\ speaker l = spk.
Proof.
  unfold isContinuation. cbv zeta. split.
  - rewrite !andb_true_iff. intros [[[Ht _] Hpre] Hl].
    destruct (snoc_cases (transcript s)) as [Hnil | (front & l & Htr)].
    + rewrite Hnil in Hl. discriminate.
    + rewrite Htr, lookup_last_index in Hl.
      apply bool_decide_eq_true in Hl.
      repeat split; [exact Ht | exact Hpre |]. exists front, l. auto.
  - intros (Ht & Hpre & front & l & Htr & Hl).
    rewrite Ht, Htr, lookup_last_index.
    unfold Js.startsWith. rewrite Hpre.
    rewrite (bool_decide_eq_true_2 _ Hl).
    rewrite length_app. simpl.
    replace (length front + 1) with (S (length front)) by lia. reflexivity.
Qed.

(** The test when the object owns a text for the speaker. *)
Lemma isContinuation_own s spk txt prev :
  lastBySpeaker s !! spk = Some prev ->
  isContinuation s spk txt = true <->
  prev ≠ EmptyString /\ String.prefix prev txt = true
  /\ exists front l, transcript s = front ++ [l] /\ speaker l = spk.
Proof.
  intros Hprev. rewrite isContinuation_true, (getProperty_own _ _ _ Hprev). simpl.
  rewrite truthy_true. reflexivity.
Qed.

Lemma reconcile_single clock e s :
  reconcile clock [e] s =
    let '(s', c) := processEntry (clock 0) s e in
    (if c then scheduleStorageFlush s' else s', c).
Proof.
  unfold reconcile. simpl. destruct (processEntry (clock 0) s e) as [s' c].
  reflexivity.
Qed.

Lemma transcript_scheduleStorageFlush s :
  transcript (scheduleStorageFlush s) = transcript s.
Proof. unfold scheduleStorageFlush. destruct (storageFlushTimer s); reflexivity. Qed.

Lemma lastBySpeaker_scheduleStorageFlush s :
  lastBySpeaker (scheduleStorageFlush s) = lastBySpeaker s.
Proof. unfold scheduleStorageFlush. destruct (storageFlushTimer s); reflexivity. Qed.

(** ** The laws of the reconciliation loop *)

(** C4 (continuation law): when the last entry is by [S] and the text
    remembered for [S] is "Hello", feeding the single entry [S], "Hello world"
    keeps the number of entries, creates no entry and rewrites the last entry
    in place: its text is "Hello world" and its time stamp is the current
    time; the entries before it are the same. *)
Theorem continuation_law (clock : nat -> string) (s : State) (S : string)
    (front : list TranscriptEntry) (l : TranscriptEntry) :
  transcript s = front ++ [l] ->
  speaker l = S ->
  lastBySpeaker s !! S = Some "Hello" ->
  let '(s', changed) := reconcile clock [mkParsed S "Hello world"] s in
  changed = true
  /\ length (transcript s') = length (transcript s)
  /\ transcript s' = front ++ [mkEntry (clock 0) S "Hello world"]
  /\ lastBySpeaker s' = <[S := "Hello world"]> (lastBySpeaker s).
Proof.
  intros Htr Hl Hprev.
  rewrite reconcile_single.
  rewrite processEntry_new; simpl; [| discriminate | rewrite Hprev; discriminate].
  assert (Hc : isContinuation s S "Hello world" = true).
  { apply (isContinuation_own s S "Hello world" "Hello" Hprev).
    repeat split; [discriminate |]. exists front, l. auto. }
  rewrite Hc, Htr, amendLast_snoc, Hl.
  rewrite setProperty_insert by (right; rewrite Hprev; eauto).
  rewrite transcript_scheduleStorageFlush, lastBySpeaker_scheduleStorageFlush. simpl.
  repeat split; auto. rewrite !length_app. reflexivity.
Qed.

Lemma continuation_law_witness :
  let s := mkState [mkEntry "10:00:00" "Ann" "Hello"] {["Ann" := "Hello"]}
             NoObserver false (Some "abc-defg-hij") in
  let '(s', changed) := reconcile (fun _ => "10:00:01") [mkParsed "Ann" "Hello world"] s in
  changed = true
  /\ length (transcript s') = length (transcript s)
  /\ transcript s' = [] ++ [mkEntry "10:00:01" "Ann" "Hello world"]
  /\ lastBySpeaker s' = <["Ann" := "Hello world"]> (lastBySpeaker s).
Proof.
  exact (continuation_law (fun _ => "10:00:01")
           (mkState [mkEntry "10:00:00" "Ann" "Hello"] {["Ann" := "Hello"]}
              NoObserver false (Some "abc-defg-hij"))
           "Ann" [] (mkEntry "10:00:00" "Ann" "Hello")
           eq_refl eq_refl eq_refl).
Defined.

Lemma isContinuation_false s spk txt :
  Js.startsWith txt (valueToString (getProperty (lastBySpeaker s) spk)) = false
  \/ getProperty (lastBySpeaker s) spk = JsUndefined
  \/ speaker <$> last (transcript s) ≠ Some spk ->
  isContinuation s spk txt = false.
Proof.
  intros H. apply not_true_is_false. intros Hc.
  apply isContinuation_true in Hc.
  destruct Hc as (Ht & Hpre & front & l & Htr & Hl).
  destruct H as [Hpf | [Hn | Hs]].
  - unfold Js.startsWith in Hpf. congruence.
  - rewrite Hn in Ht. discriminate.
  - apply Hs. rewrite Htr, last_snoc. simpl. congruence.
Qed.



(** C10, at a speaker named "__proto__": in an empty session, one
    snapshot with two blocks of that speaker, "Good" and "Good morning", leaves
    two entries and no text of the speaker in [lastBySpeaker]: what
    [lastBySpeaker["__proto__"]] gives is [Object.prototype], before and
    after. *)
Theorem proto_speaker_blocks_not_merged (clock : nat -> string) :
  let s' := (reconcile clock
               [mkParsed "__proto__" "Good"; mkParsed "__proto__" "Good morning"]
               initialState).1 in
  transcript s'
  = [mkEntry (clock 0) "__proto__" "Good"; mkEntry (clock 1) "__proto__" "Good morning"]
  /\ lastBySpeaker s' = ∅
  /\ getProperty (lastBySpeaker s') "__proto__" = JsObjectPrototype.
Proof.
  cbv zeta. repeat split.
Qed.

(** X22: for any other speaker the two blocks are merged: in an empty session,
    one snapshot with two blocks of a speaker not named "__proto__", the
    second text starting with the first, leaves one entry with the second
    text, which is also the text remembered for the speaker. *)
Theorem same_speaker_twice_merged (clock : nat -> string) (s : State) (S t1 t2 : string) :
  S ≠ "__proto__" ->
  transcript s = [] ->
  lastBySpeaker s = ∅ ->
  t1 ≠ EmptyString ->
  t2 ≠ EmptyString ->
  Js.startsWith t2 t1 = true ->
  let s' := (reconcile clock [mkParsed S t1; mkParsed S t2] s).1 in
  transcript s'
  = [mkEntry (if bool_decide (t1 = t2) then clock 0 else clock 1) S t2]
  /\ lastBySpeaker s' = {[S := t2]}.
Proof.
  intros HS Htr Hlast H1 H2 Hpre. unfold reconcile. simpl.
  rewrite processEntry_new; simpl; [| assumption | rewrite Hlast, lookup_empty; discriminate].
  rewrite (isContinuation_false s S t1)
    by (right; right; rewrite Htr; discriminate).
  rewrite setProperty_insert by (left; exact HS).
  rewrite Htr, Hlast. simpl.
  set (s1 := set_lastBySpeaker _ _).
  assert (Hl1 : lastBySpeaker s1 !! S = Some t1) by (simpl; apply lookup_insert_eq).
  destruct (decide (t1 = t2)) as [-> | Hne].
  - rewrite processEntry_skip by (right; exact Hl1). simpl.
    rewrite transcript_scheduleStorageFlush, lastBySpeaker_scheduleStorageFlush.
    rewrite bool_decide_eq_true_2 by reflexivity.
    split; [reflexivity |]. simpl. apply insert_empty.
  - rewrite processEntry_new
      by (cbn [p_text p_speaker]; first [assumption | rewrite Hl1; congruence]).
    cbn [p_text p_speaker].
    assert (Hc : isContinuation s1 S t2 = true).
    { apply (isContinuation_own s1 S t2 t1 Hl1).
      repeat split; auto. exists [], (mkEntry (clock 0) S t1). auto. }
    rewrite Hc. rewrite setProperty_insert by (left; exact HS). simpl.
    rewrite transcript_scheduleStorageFlush, lastBySpeaker_scheduleStorageFlush. simpl.
    rewrite bool_decide_eq_false_2 by assumption.
    split; [reflexivity |].
    rewrite insert_insert_eq. apply insert_empty.
Qed.

Lemma same_speaker_twice_merged_witness :
  let s' := (reconcile (fun i => if Nat.eqb i 0 then "10:00:00" else "10:00:01")
               [mkParsed "Ann" "Good"; mkParsed "Ann" "Good morning"] initialState).1 in
  transcript s' = [mkEntry "10:00:01" "Ann" "Good morning"]
  /\ lastBySpeaker s' = {["Ann" := "Good morning"]}.
Proof.
  apply (same_speaker_twice_merged
           (fun i => if Nat.eqb i 0 then "10:00:00" else "10:00:01")
           initialState "Ann" "Good" "Good morning");
    first [reflexivity | discriminate].
Defined.

(** ** Frame of the loop *)

Lemma frame_refl tr : frame tr tr.
Proof. repeat split; eauto. Qed.

Lemma frame_trans tr1 tr2 tr3 : frame tr1 tr2 -> frame tr2 tr3 -> frame tr1 tr3.
Proof.
  intros (Hl1 & Hk1 & Hs1) (Hl2 & Hk2 & Hs2). repeat split.
  - lia.
  - intros i e Hi He. apply Hk2; [lia | auto].
  - intros i e He. destruct (Hs1 i e He) as (e1 & He1 & Hsp1).
    destruct (Hs2 i e1 He1) as (e2 & He2 & Hsp2). exists e2. split; congruence.
Qed.

Lemma frame_snoc tr x : frame tr (tr ++ [x]).
Proof.
  repeat split.
  - rewrite length_app. lia.
  - intros i e _ He. apply lookup_app_l_Some. exact He.
  - intros i e He. exists e. split; [apply lookup_app_l_Some; exact He | reflexivity].
Qed.

Lemma frame_amendLast now txt tr : frame tr (amendLast now txt tr).
Proof.
  unfold amendLast. repeat split.
  - rewrite length_alter. lia.
  - intros i e Hi He. rewrite list_lookup_alter_ne by lia. exact He.
  - intros i e He. destruct (decide (i = length tr - 1)) as [-> | Hne].
    + rewrite list_lookup_alter_eq, He. simpl. eauto.
    + rewrite list_lookup_alter_ne by lia. eauto.
Qed.

Lemma frame_processEntry now s e : frame (transcript s) (transcript (processEntry now s e).1).
Proof.
  unfold processEntry.
  destruct (negb (Js.truthy (p_text e)) || bool_decide _); simpl.
  - apply frame_refl.
  - destruct (isContinuation s (p_speaker e) (p_text e)).
    + apply frame_amendLast.
    + apply frame_snoc.
Qed.

Lemma frame_reconcileLoop clock entries : forall i s changed,
  frame (transcript s) (transcript (reconcileLoop clock i entries s changed).1).
Proof.
  induction entries as [| e rest IH]; intros i s changed; simpl.
  - apply frame_refl.
  - pose proof (frame_processEntry (clock i) s e) as Hstep.
    destruct (processEntry (clock i) s e) as [s1 c]. simpl in Hstep.
    eapply frame_trans; [exact Hstep | apply IH].
Qed.

Lemma transcript_reconcile clock entries s :
  transcript (reconcile clock entries s).1
  = transcript (reconcileLoop clock 0 entries s false).1.
Proof.
  unfold reconcile. destruct (reconcileLoop clock 0 entries s false) as [s' c].
  simpl. destruct c; [apply transcript_scheduleStorageFlush | reflexivity].
Qed.

Lemma lastBySpeaker_reconcile clock entries s :
  lastBySpeaker (reconcile clock entries s).1
  = lastBySpeaker (reconcileLoop clock 0 entries s false).1.
Proof.
  unfold reconcile. destruct (reconcileLoop clock 0 entries s false) as [s' c].
  simpl. destruct c; [apply lastBySpeaker_scheduleStorageFlush | reflexivity].
Qed.

Lemma frame_reconcile clock entries s :
  frame (transcript s) (transcript (reconcile clock entries s).1).
Proof. rewrite transcript_reconcile. apply frame_reconcileLoop. Qed.

Lemma frame_keepsHistory tr tr' : frame tr tr' -> keepsHistory tr tr'.
Proof.
  intros (Hlen & Hkeep & Hspk). split; [exact Hlen | split].
  - exists (drop (length tr - 1) tr').
    rewrite <- (take_drop (length tr - 1) tr') at 1. f_equal.
    apply list_eq. intros i.
    destruct (decide (i < length tr - 1)) as [Hi | Hi].
    + rewrite !lookup_take_lt by lia.
      destruct (tr !! i) as [e |] eqn:He.
      * apply Hkeep; assumption.
      * apply lookup_ge_None in He. lia.
    + rewrite !lookup_take_ge by lia. reflexivity.
  - exists (drop (length tr) (speaker <$> tr')).
    rewrite <- (take_drop (length tr) (speaker <$> tr')) at 1. f_equal.
    apply list_eq. intros i.
    destruct (decide (i < length tr)) as [Hi | Hi].
    + rewrite lookup_take_lt by lia. rewrite !list_lookup_fmap.
      destruct (tr !! i) as [e |] eqn:He.
      * destruct (Hspk i e He) as (e' & He' & Hsp). rewrite He'. simpl. congruence.
      * apply lookup_ge_None in He. lia.
    + rewrite lookup_take_ge by lia.
      symmetry. apply lookup_ge_None. rewrite length_fmap. lia.
Qed.

Lemma transcript_tryNarrowObserver doc w :
  transcript (state (tryNarrowObserver doc w)) = transcript (state w).
Proof.
  unfold tryNarrowObserver. destruct (narrowObserverAttached w); [reflexivity |].
  destruct (getCaptionContainer doc); reflexivity.
Qed.

Lemma lastBySpeaker_tryNarrowObserver doc w :
  lastBySpeaker (state (tryNarrowObserver doc w)) = lastBySpeaker (state w).
Proof.
  unfold tryNarrowObserver. destruct (narrowObserverAttached w); [reflexivity |].
  destruct (getCaptionContainer doc); reflexivity.
Qed.

(** C7: a run of the reconciliation loop keeps the history of the
    transcript: the entries before the last one stay as they are, no entry
    is dropped or moved, the length does not decrease.  The same holds for
    every event of the script but the two resets, the [clear] request and a
    navigation check that finds another meeting id, which empty the
    transcript. *)
Theorem transcript_history (w : Page) (ev : Event) :
  (forall clock entries,
     keepsHistory (transcript (state w))
                  (transcript (reconcile clock entries (state w)).1))
  /\ (if isReset w ev
      then transcript (state (handle w ev)) = []
      else keepsHistory (transcript (state w)) (transcript (state (handle w ev)))).
Proof.
  split.
  - intros clock entries. apply frame_keepsHistory, frame_reconcile.
  - destruct ev as [clock entries | clock doc | doc | pathname doc | |]; simpl.
    + apply frame_keepsHistory, frame_reconcile.
    + apply frame_keepsHistory. unfold processCaptions.
      destruct (getCaptionContainer doc); [apply frame_reconcile | apply frame_refl].
    + apply frame_keepsHistory. unfold onBodyMutation.
      destruct (observer (state w)); try apply frame_refl.
      rewrite transcript_tryNarrowObserver. apply frame_refl.
    + unfold handleNavigation.
      destruct (bool_decide (Some (getMeetingId pathname) = meetingId (state w))); simpl.
      * apply frame_keepsHistory, frame_refl.
      * rewrite transcript_tryNarrowObserver. reflexivity.
    + reflexivity.
    + apply frame_keepsHistory. unfold onStorageFlushTimer.
      destruct (storageFlushTimer (state w)); apply frame_refl.
Qed.

(** ** Idempotence *)

Lemma lastBySpeaker_processEntry_self now s e :
  p_text e ≠ EmptyString ->
  p_speaker e ≠ "__proto__" ->
  lastBySpeaker (processEntry now s e).1 !! p_speaker e = Some (p_text e).
Proof.
  intros Ht Hk.
  destruct (decide (lastBySpeaker s !! p_speaker e = Some (p_text e))) as [Heq | Hne].
  - rewrite processEntry_skip by auto. exact Heq.
  - rewrite processEntry_new by assumption. simpl.
    rewrite setProperty_insert by (left; exact Hk). apply lookup_insert_eq.
Qed.

Lemma lastBySpeaker_processEntry_other now s e S :
  S ≠ p_speaker e ->
  lastBySpeaker (processEntry now s e).1 !! S = lastBySpeaker s !! S.
Proof.
  intros Hne. unfold processEntry.
  destruct (negb (Js.truthy (p_text e)) || bool_decide _); simpl; [reflexivity |].
  apply lookup_setProperty_ne. congruence.
Qed.

Lemma remembers_processEntry now s e known :
  p_speaker e ≠ "__proto__" ->
  oneTextPerSpeaker (known ++ [e]) ->
  remembers (lastBySpeaker s) known ->
  remembers (lastBySpeaker (processEntry now s e).1) (known ++ [e]).
Proof.
  intros Hk Hone Hrem e' Hin Ht'.
  apply elem_of_app in Hin. destruct Hin as [Hin | Hin].
  - destruct (decide (p_speaker e' = p_speaker e)) as [Heq | Hne].
    + destruct (decide (p_text e = EmptyString)) as [Hempty | Hfull].
      * rewrite processEntry_skip by auto. apply Hrem; assumption.
      * rewrite Heq. rewrite lastBySpeaker_processEntry_self by assumption.
        f_equal. apply Hone; auto; set_solver.
    + rewrite lastBySpeaker_processEntry_other by assumption. apply Hrem; assumption.
  - apply list_elem_of_singleton in Hin. subst e'.
    apply lastBySpeaker_processEntry_self; assumption.
Qed.

Lemma remembers_reconcileLoop clock entries : forall i s changed known,
  (forall e, e ∈ entries -> p_speaker e ≠ "__proto__") ->
  oneTextPerSpeaker (known ++ entries) ->
  remembers (lastBySpeaker s) known ->
  remembers (lastBySpeaker (reconcileLoop clock i entries s changed).1) (known ++ entries).
Proof.
  induction entries as [| e rest IH]; intros i s changed known Hk Hone Hrem; simpl.
  - rewrite app_nil_r. exact Hrem.
  - pose proof (remembers_processEntry (clock i) s e known) as Hstep.
    destruct (processEntry (clock i) s e) as [s1 c]. simpl in Hstep.
    rewrite cons_middle, app_assoc in Hone |- *.
    apply IH.
    + intros e' Hin. apply Hk. apply list_elem_of_further. exact Hin.
    + exact Hone.
    + apply Hstep; [apply Hk; apply list_elem_of_here | | exact Hrem].
      intros e1 e2 H1 H2. apply Hone; apply elem_of_app; left; assumption.
Qed.

Lemma reconcileLoop_remembered clock entries : forall i s changed,
  remembers (lastBySpeaker s) entries ->
  reconcileLoop clock i entries s changed = (s, changed).
Proof.
  induction entries as [| e rest IH]; intros i s changed Hrem; simpl; [reflexivity |].
  rewrite processEntry_skip.
  - rewrite orb_false_r. apply IH. intros e' Hin. apply Hrem. set_solver.
  - destruct (decide (p_text e = EmptyString)); [auto | right].
    apply Hrem; [set_solver | assumption].
Qed.

(** C6 (idempotence), amended: when no block of the snapshot is by a
    speaker named "__proto__" and the blocks of one speaker that carry a
    text all carry the same text (as in every snapshot with one block per
    speaker), reconciling the same snapshot a second time reports no change
    and leaves the whole state, time stamps included, as it is. *)
Theorem reconcile_idempotent (c1 c2 : nat -> string) (entries : list Parsed) (s : State) :
  (forall e, e ∈ entries -> p_speaker e ≠ "__proto__") ->
  oneTextPerSpeaker entries ->
  reconcile c2 entries (reconcile c1 entries s).1 = ((reconcile c1 entries s).1, false).
Proof.
  intros Hk Hone.
  assert (Hrem : remembers (lastBySpeaker (reconcile c1 entries s).1) entries).
  { rewrite lastBySpeaker_reconcile.
    apply (remembers_reconcileLoop c1 entries 0 s false []); [exact Hk | exact Hone |].
    intros e Hin. set_solver. }
  unfold reconcile at 1.
  rewrite reconcileLoop_remembered by exact Hrem. reflexivity.
Qed.

Lemma reconcile_idempotent_witness :
  let entries := [mkParsed "Ann" "Hello"; mkParsed "Bob" "Hi Ann"] in
  reconcile (fun _ => "10:00:09") entries
    (reconcile (fun _ => "10:00:01") entries initialState).1
  = ((reconcile (fun _ => "10:00:01") entries initialState).1, false).
Proof.
  apply (reconcile_idempotent (fun _ => "10:00:01") (fun _ => "10:00:09")
           [mkParsed "Ann" "Hello"; mkParsed "Bob" "Hi Ann"] initialState).
  - intros e He. apply elem_of_cons in He. destruct He as [-> | He]; [discriminate |].
    apply list_elem_of_singleton in He. subst e. discriminate.
  - intros e1 e2 H1 H2 Hs _ _.
    apply elem_of_cons in H1. apply elem_of_cons in H2.
    destruct H1 as [-> | H1]; destruct H2 as [-> | H2]; try reflexivity.
    + apply list_elem_of_singleton in H2. subst e2. discriminate Hs.
    + apply list_elem_of_singleton in H1. subst e1. discriminate Hs.
    + apply list_elem_of_singleton in H1. apply list_elem_of_singleton in H2.
      subst. reflexivity.
Defined.

(** C6 as stated fails: with two blocks of one speaker carrying different
    texts, the second pass over the same snapshot reports a change and
    appends two more entries. *)
Lemma idempotence_counterexample :
  let entries := [mkParsed "Ann" "Hello"; mkParsed "Ann" "Thanks"] in
  let s1 := (reconcile (fun _ => "10:00:01") entries initialState).1 in
  let r2 := reconcile (fun _ => "10:00:01") entries s1 in
  r2.2 = true
  /\ lines (transcript s1) = [("Ann", "Hello"); ("Ann", "Thanks")]
  /\ lines (transcript r2.1)
     = [("Ann", "Hello"); ("Ann", "Thanks"); ("Ann", "Hello"); ("Ann", "Thanks")]
  /\ r2 ≠ (s1, false).
Proof.
  cbv zeta. repeat split; try (vm_compute; reflexivity).
  intros Heq. apply (f_equal snd) in Heq. vm_compute in Heq. discriminate Heq.
Qed.

(** ** The remembered texts and the transcript *)

Lemma lastTextOf_snoc S tr x :
  lastTextOf S (tr ++ [x])
  = if decide (speaker x = S) then Some (text x) else lastTextOf S tr.
Proof.
  unfold lastTextOf. rewrite filter_app.
  destruct (decide (speaker x = S)) as [Heq | Hne].
  - rewrite (filter_cons_True _ x []) by exact Heq.
    rewrite filter_nil, last_snoc. reflexivity.
  - rewrite (filter_cons_False _ x []) by exact Hne.
    rewrite filter_nil, app_nil_r. reflexivity.
Qed.

Lemma coupled_processEntry now s e : coupled s -> coupled (processEntry now s e).1.
Proof.
  intros Hc.
  destruct (decide (p_text e = EmptyString)) as [Hempty | Hfull].
  { rewrite processEntry_skip by auto. exact Hc. }
  destruct (decide (lastBySpeaker s !! p_speaker e = Some (p_text e))) as [Hsame | Hnew].
  { rewrite processEntry_skip by auto. exact Hc. }
  rewrite processEntry_new by assumption. simpl.
  destruct (isContinuation s (p_speaker e) (p_text e)) eqn:Hcont.
  - apply isContinuation_true in Hcont.
    destruct Hcont as (_ & _ & front & l & Htr & Hl).
    intros S t. simpl. rewrite Htr, amendLast_snoc, lastTextOf_snoc. simpl.
    rewrite Hl. intros Hin. apply lookup_setProperty_Some in Hin.
    destruct Hin as [[<- ->] | [Hne Hin]].
    + rewrite decide_True by reflexivity. auto.
    + rewrite decide_False by exact Hne.
      destruct (Hc S t Hin) as [Ht Hlast]. split; [exact Ht |].
      rewrite Htr, lastTextOf_snoc in Hlast.
      rewrite decide_False in Hlast by congruence. exact Hlast.
  - intros S t. simpl. rewrite lastTextOf_snoc. simpl.
    intros Hin. apply lookup_setProperty_Some in Hin.
    destruct Hin as [[<- ->] | [Hne Hin]].
    + rewrite decide_True by reflexivity. auto.
    + rewrite decide_False by exact Hne. apply Hc. exact Hin.
Qed.

Lemma coupled_reconcileLoop clock entries : forall i s changed,
  coupled s -> coupled (reconcileLoop clock i entries s changed).1.
Proof.
  induction entries as [| e rest IH]; intros i s changed Hc; simpl; [exact Hc |].
  pose proof (coupled_processEntry (clock i) s e Hc) as Hstep.
  destruct (processEntry (clock i) s e) as [s1 c]. apply IH. exact Hstep.
Qed.

Lemma coupled_same s s' :
  transcript s' = transcript s -> lastBySpeaker s' = lastBySpeaker s ->
  coupled s -> coupled s'.
Proof. unfold coupled. intros -> ->. auto. Qed.

Lemma coupled_reconcile clock entries s : coupled s -> coupled (reconcile clock entries s).1.
Proof.
  intros Hc.
  apply (coupled_same (reconcileLoop clock 0 entries s false).1).
  - apply transcript_reconcile.
  - apply lastBySpeaker_reconcile.
  - apply coupled_reconcileLoop. exact Hc.
Qed.

Lemma coupled_empty s : lastBySpeaker s = ∅ -> coupled s.
Proof. intros He S t. rewrite He, lookup_empty. discriminate. Qed.

Lemma coupled_handle w ev : coupled (state w) -> coupled (state (handle w ev)).
Proof.
  intros Hc. destruct ev as [clock entries | clock doc | doc | pathname doc | |]; simpl.
  - apply coupled_reconcile. exact Hc.
  - unfold processCaptions. destruct (getCaptionContainer doc); [| exact Hc].
    apply coupled_reconcile. exact Hc.
  - unfold onBodyMutation. destruct (observer (state w)); try exact Hc.
    apply (coupled_same (state w));
      [apply transcript_tryNarrowObserver | apply lastBySpeaker_tryNarrowObserver | exact Hc].
  - unfold handleNavigation.
    destruct (bool_decide (Some (getMeetingId pathname) = meetingId (state w)));
      [exact Hc |].
    apply coupled_empty. rewrite lastBySpeaker_tryNarrowObserver. reflexivity.
  - apply coupled_empty. reflexivity.
  - unfold onStorageFlushTimer. destruct (storageFlushTimer (state w)); exact Hc.
Qed.

Lemma coupled_run evs : forall w, coupled (state w) -> coupled (state (run w evs)).
Proof.
  induction evs as [| ev rest IH]; intros w Hc; simpl; [exact Hc |].
  apply IH, coupled_handle, Hc.
Qed.

Lemma lastBySpeaker_startup pathname doc stored :
  lastBySpeaker (state (startup pathname doc stored)) = ∅.
Proof.
  unfold startup, onStorageRead.
  set (w := init _ _ _).
  assert (Hw : lastBySpeaker (state w) = ∅).
  { unfold w, init. rewrite lastBySpeaker_tryNarrowObserver. reflexivity. }
  destruct (current_meeting_id stored); [| exact Hw].
  destruct (meetingId (state w)); [| exact Hw].
  destruct (current_meeting_transcript stored); [| exact Hw].
  destruct (bool_decide _); exact Hw.
Qed.

Lemma coupled_reachable pathname doc stored evs :
  coupled (state (run (startup pathname doc stored) evs)).
Proof. apply coupled_run, coupled_empty, lastBySpeaker_startup. Qed.

Lemma spokenIn_cons e rest :
  spokenIn (e :: rest)
  = (if decide (p_text e ≠ EmptyString) then {[p_speaker e]} else ∅) ∪ spokenIn rest.
Proof.
  unfold spokenIn. destruct (decide (p_text e ≠ EmptyString)) as [Hfull | Hempty].
  - rewrite filter_cons_True by exact Hfull. reflexivity.
  - rewrite filter_cons_False by exact Hempty. rewrite union_empty_l_L. reflexivity.
Qed.

Lemma empty_difference_gset (X : gset string) : (∅ : gset string) ∖ X = ∅.
Proof.
  apply set_eq. intros x. rewrite elem_of_difference. split.
  - intros [H _]. exact H.
  - intros H. exfalso. exact (not_elem_of_empty x H).
Qed.

Lemma difference_union_gset (A B P : gset string) : (A ∪ B) ∖ P = A ∖ P ∪ B ∖ P.
Proof. apply difference_union_distr_l_L. Qed.

Lemma difference_singleton_same (k : string) : ({[k]} : gset string) ∖ {[k]} = ∅.
Proof. apply difference_diag_L. Qed.

Lemma difference_singleton_other (k p : string) :
  k ≠ p -> ({[k]} : gset string) ∖ {[p]} = {[k]}.
Proof.
  intros Hne. apply set_eq. intros x.
  rewrite elem_of_difference, !elem_of_singleton. split; [tauto |].
  intros ->. auto.
Qed.

(** The names the object owns after an iteration; it never comes to own
    [__proto__]. *)
Lemma dom_processEntry now s e :
  "__proto__" ∉ dom (lastBySpeaker s) ->
  dom (lastBySpeaker (processEntry now s e).1)
  = dom (lastBySpeaker s)
    ∪ (if decide (p_text e ≠ EmptyString) then {[p_speaker e]} else ∅) ∖ {["__proto__"]}.
Proof.
  intros Hproto.
  destruct (decide (p_text e ≠ EmptyString)) as [Hfull | Hempty].
  - destruct (decide (p_speaker e = "__proto__")) as [Hk | Hk].
    + rewrite Hk, difference_singleton_same, union_empty_r_L.
      apply not_elem_of_dom in Hproto.
      rewrite processEntry_new by (first [assumption | rewrite Hk, Hproto; discriminate]).
      simpl. rewrite Hk, setProperty_swallowed by exact Hproto. reflexivity.
    + rewrite difference_singleton_other by exact Hk.
      destruct (decide (lastBySpeaker s !! p_speaker e = Some (p_text e))) as [Hsame | Hnew].
      * rewrite processEntry_skip by auto.
        rewrite (comm_L (∪)). symmetry.
        apply subseteq_union_1_L, singleton_subseteq_l, elem_of_dom. eauto.
      * rewrite processEntry_new by assumption. simpl.
        rewrite setProperty_insert by (left; exact Hk).
        rewrite dom_insert_L. apply (comm_L (∪)).
  - rewrite processEntry_skip by (left; destruct (decide (p_text e = EmptyString)); tauto).
    rewrite empty_difference_gset, union_empty_r_L. reflexivity.
Qed.

Lemma dom_reconcileLoop clock entries : forall i s changed,
  "__proto__" ∉ dom (lastBySpeaker s) ->
  dom (lastBySpeaker (reconcileLoop clock i entries s changed).1)
  = dom (lastBySpeaker s) ∪ spokenIn entries ∖ {["__proto__"]}.
Proof.
  induction entries as [| e rest IH]; intros i s changed Hproto; simpl.
  - unfold spokenIn. simpl. rewrite empty_difference_gset, union_empty_r_L. reflexivity.
  - pose proof (dom_processEntry (clock i) s e Hproto) as Hstep.
    destruct (processEntry (clock i) s e) as [s1 c]. simpl in Hstep.
    rewrite IH.
    + rewrite Hstep, spokenIn_cons, difference_union_gset.
      rewrite assoc_L; [reflexivity | apply _].
    + rewrite Hstep. intros Hin. apply elem_of_union in Hin.
      destruct Hin as [Hin | Hin]; [exact (Hproto Hin) |].
      apply elem_of_difference in Hin. destruct Hin as [_ Hin].
      apply Hin. apply elem_of_singleton. reflexivity.
Qed.

Lemma dom_reconcile clock entries s spk :
  dom (lastBySpeaker s) = spk ∖ {["__proto__"]} ->
  dom (lastBySpeaker (reconcile clock entries s).1)
  = (spk ∪ spokenIn entries) ∖ {["__proto__"]}.
Proof.
  intros Hdom. rewrite lastBySpeaker_reconcile, dom_reconcileLoop.
  - rewrite Hdom, difference_union_gset. reflexivity.
  - rewrite Hdom. intros Hin. apply elem_of_difference in Hin.
    destruct Hin as [_ Hin]. apply Hin. apply elem_of_singleton. reflexivity.
Qed.

Lemma dom_handle w ev spk :
  dom (lastBySpeaker (state w)) = spk ∖ {["__proto__"]} ->
  dom (lastBySpeaker (state (handle w ev))) = spokenStep w spk ev ∖ {["__proto__"]}.
Proof.
  intros Hdom.
  assert (Hnil : (∅ : gset string) = ∅ ∖ {["__proto__"]})
    by (symmetry; apply empty_difference_gset).
  unfold spokenStep.
  destruct ev as [clock entries | clock doc | doc | pathname doc | |]; simpl.
  - apply dom_reconcile. exact Hdom.
  - unfold processCaptions. destruct (getCaptionContainer doc); [| exact Hdom].
    apply dom_reconcile. exact Hdom.
  - unfold onBodyMutation. destruct (observer (state w)); try exact Hdom.
    rewrite lastBySpeaker_tryNarrowObserver. exact Hdom.
  - unfold handleNavigation.
    destruct (bool_decide (Some (getMeetingId pathname) = meetingId (state w)));
      simpl; [exact Hdom |].
    rewrite lastBySpeaker_tryNarrowObserver. simpl. rewrite dom_empty_L. exact Hnil.
  - rewrite dom_empty_L. exact Hnil.
  - unfold onStorageFlushTimer. destruct (storageFlushTimer (state w)); exact Hdom.
Qed.

Lemma dom_run evs : forall w spk,
  dom (lastBySpeaker (state w)) = spk ∖ {["__proto__"]} ->
  dom (lastBySpeaker (state (run w evs))) = spokenSince w spk evs ∖ {["__proto__"]}.
Proof.
  induction evs as [| ev rest IH]; intros w spk Hdom; simpl; [exact Hdom |].
  unfold run in IH. apply IH. apply dom_handle. exact Hdom.
Qed.

(** C3, at a speaker named "__proto__": after the start and one pass over
    a block of that speaker with the text "Hi", the speaker has been
    processed and its most recent entry carries "Hi", but
    [lastBySpeaker["__proto__"]] is [Object.prototype], neither "Hi" nor
    absent; the next pass over the same block records the line again. *)
Theorem proto_speaker_not_remembered (clock : nat -> string) :
  let w0 := startup "/abc-defg-hij" [] (mkStorage None None) in
  let evs := [EvReconcile clock [mkParsed "__proto__" "Hi"]] in
  let w := run w0 evs in
  "__proto__" ∈ spokenSince w0 ∅ evs
  /\ lastTextOf "__proto__" (transcript (state w)) = Some "Hi"
  /\ getProperty (lastBySpeaker (state w)) "__proto__" = JsObjectPrototype
  /\ transcript (state (run w0 (evs ++ evs)))
     = [mkEntry (clock 0) "__proto__" "Hi"; mkEntry (clock 0) "__proto__" "Hi"].
Proof.
  cbv zeta. split; [| split; [| split]].
  - change ("__proto__" ∈ (∅ : gset string) ∪ spokenIn [mkParsed "__proto__" "Hi"]).
    rewrite spokenIn_cons. cbn [p_text p_speaker].
    rewrite decide_True by discriminate.
    apply elem_of_union. right. apply elem_of_union. left.
    apply elem_of_singleton. reflexivity.
  - reflexivity.
  - reflexivity.
  - reflexivity.
Qed.

(** X21: the texts the object owns follow the transcript: after the start of
    the script, with or without a restored transcript, and any sequence of
    events, a text the object holds for a speaker is the text of the most
    recent transcript entry of that speaker, and the object holds a text
    for a speaker exactly when the speaker is not named "__proto__" and the
    loop has processed a text of that speaker since the last reset (start,
    [clear] or change of meeting). *)
Theorem own_texts_track_transcript (pathname : string) (doc : Document)
    (stored : Storage) (evs : list Event) (S : string) :
  let w0 := startup pathname doc stored in
  let w := run w0 evs in
  match lastBySpeaker (state w) !! S with
  | Some t =>
      S ∈ spokenSince w0 ∅ evs /\ S ≠ "__proto__"
      /\ lastTextOf S (transcript (state w)) = Some t
  | None => S ∉ spokenSince w0 ∅ evs \/ S = "__proto__"
  end.
Proof.
  intros w0 w.
  assert (Hdom : dom (lastBySpeaker (state w)) = spokenSince w0 ∅ evs ∖ {["__proto__"]}).
  { unfold w. apply dom_run. unfold w0.
    rewrite lastBySpeaker_startup, dom_empty_L.
    symmetry. apply empty_difference_gset. }
  destruct (lastBySpeaker (state w) !! S) as [t |] eqn:Hl.
  - assert (Hin : S ∈ dom (lastBySpeaker (state w))) by (apply elem_of_dom; eauto).
    rewrite Hdom in Hin. apply elem_of_difference in Hin. destruct Hin as [Hin Hne].
    repeat split.
    + exact Hin.
    + intros ->. apply Hne. apply elem_of_singleton. reflexivity.
    + apply (coupled_reachable pathname doc stored evs S t). exact Hl.
  - apply not_elem_of_dom in Hl. rewrite Hdom in Hl.
    destruct (decide (S = "__proto__")) as [Heq | Hne]; [right; exact Heq | left].
    intros Hin. apply Hl. apply elem_of_difference. split; [exact Hin |].
    intros Hs. apply elem_of_singleton in Hs. contradiction.
Qed.

(** ** Continuations *)

Lemma prefix_empty_r s : String.prefix s EmptyString = true -> s = EmptyString.
Proof. destruct s; [reflexivity | discriminate]. Qed.

(** C2, amended: in every reachable state, an entry [S], [t] met by the
    loop while the last transcript entry is by [S], a text is remembered for
    [S], and [t] starts with the text of that last entry, is collapsed into
    the last entry: no entry is added and the last entry carries [t]. *)
Theorem tracked_continuation_collapsed (pathname : string) (doc : Document)
    (stored : Storage) (evs : list Event) (now S t : string)
    (front : list TranscriptEntry) (l : TranscriptEntry) :
  let s := state (run (startup pathname doc stored) evs) in
  transcript s = front ++ [l] ->
  speaker l = S ->
  is_Some (lastBySpeaker s !! S) ->
  Js.startsWith t (text l) = true ->
  let s' := (processEntry now s (mkParsed S t)).1 in
  length (transcript s') = length (transcript s)
  /\ transcript s'
     = front ++ [mkEntry (if bool_decide (t = text l) then ts l else now) S t].
Proof.
  intros s Htr Hl [prev Hprev] Hpre s'.
  destruct (coupled_reachable pathname doc stored evs S prev Hprev) as [Hne Hlast].
  fold s in Hlast. rewrite Htr, lastTextOf_snoc, decide_True in Hlast by exact Hl.
  injection Hlast as Hlast. subst prev.
  assert (Hgoal : transcript s'
     = front ++ [mkEntry (if bool_decide (t = text l) then ts l else now) S t]).
  { unfold s'. destruct (decide (t = text l)) as [Heq | Hneq].
    - rewrite processEntry_skip by (right; simpl; congruence).
      rewrite bool_decide_eq_true_2 by exact Heq. simpl.
      rewrite Htr, Heq, <- Hl. destruct l; reflexivity.
    - rewrite bool_decide_eq_false_2 by exact Hneq.
      assert (Ht : t ≠ EmptyString).
      { intros ->. apply Hne. apply prefix_empty_r. exact Hpre. }
      rewrite processEntry_new by (simpl; congruence). simpl.
      assert (Hc : isContinuation s S t = true).
      { apply (isContinuation_own s S t (text l) Hprev).
        repeat split; [exact Hne | exact Hpre |]. exists front, l. auto. }
      rewrite Hc, Htr, amendLast_snoc, Hl. reflexivity. }
  split; [| exact Hgoal].
  rewrite Hgoal, Htr, !length_app. reflexivity.
Qed.

Lemma tracked_continuation_collapsed_witness :
  let s := state (run (startup "/abc-defg-hij" [] (mkStorage None None))
                    [EvReconcile (fun _ => "10:00:00") [mkParsed "Ann" "Hi"]]) in
  let s' := (processEntry "10:00:01" s (mkParsed "Ann" "Hi there")).1 in
  length (transcript s') = length (transcript s)
  /\ transcript s' = [] ++ [mkEntry "10:00:01" "Ann" "Hi there"].
Proof.
  apply (tracked_continuation_collapsed "/abc-defg-hij" [] (mkStorage None None)
           [EvReconcile (fun _ => "10:00:00") [mkParsed "Ann" "Hi"]]
           "10:00:01" "Ann" "Hi there" [] (mkEntry "10:00:00" "Ann" "Hi")).
  - reflexivity.
  - reflexivity.
  - exists "Hi". reflexivity.
  - reflexivity.
Defined.

(** C2 as stated fails: a speaker's finished line "Yes I agree", then a new
    line of the same speaker that starts as "Yes" and grows to "Yes I agree
    with that", leave two neighbouring entries of that speaker, the first a
    strict prefix of the second. *)
Lemma unmerged_continuation_reachable :
  let w := run (startup "/abc-defg-hij" [] (mkStorage None None))
             [EvReconcile (fun _ => "10:00:00") [mkParsed "Ann" "Yes I agree"];
              EvReconcile (fun _ => "10:00:07") [mkParsed "Ann" "Yes"];
              EvReconcile (fun _ => "10:00:08") [mkParsed "Ann" "Yes I agree with that"]] in
  transcript (state w)
  = [mkEntry "10:00:00" "Ann" "Yes I agree";
     mkEntry "10:00:08" "Ann" "Yes I agree with that"]
  /\ unmergedContinuation (transcript (state w)).
Proof.
  cbv zeta.
  assert (Htr : transcript (state (run (startup "/abc-defg-hij" [] (mkStorage None None))
             [EvReconcile (fun _ => "10:00:00") [mkParsed "Ann" "Yes I agree"];
              EvReconcile (fun _ => "10:00:07") [mkParsed "Ann" "Yes"];
              EvReconcile (fun _ => "10:00:08") [mkParsed "Ann" "Yes I agree with that"]]))
          = [mkEntry "10:00:00" "Ann" "Yes I agree";
             mkEntry "10:00:08" "Ann" "Yes I agree with that"])
    by (vm_compute; reflexivity).
  split; [exact Htr |]. rewrite Htr.
  exists 0, (mkEntry "10:00:00" "Ann" "Yes I agree"),
    (mkEntry "10:00:08" "Ann" "Yes I agree with that").
  repeat split; try reflexivity. discriminate.
Qed.

(** ** Session lifecycle *)

(** C8: a navigation check that derives a meeting id different from the
    stored one empties the transcript and the remembered texts, adopts the
    new id, removes the persisted transcript and id from the storage, and
    clears the narrowing latch before looking for the caption container
    again: the latch is set and the observer narrowed exactly when a
    container is found in the new page.  A check that derives the stored id
    changes nothing. *)
Theorem meeting_change_resets (pathname : string) (doc : Document) (w : Page) :
  let newId := getMeetingId pathname in
  let w' := handleNavigation pathname doc w in
  (Some newId ≠ meetingId (state w) ->
     transcript (state w') = []
     /\ lastBySpeaker (state w') = ∅
     /\ meetingId (state w') = Some newId
     /\ storage w' = mkStorage None None
     /\ match getCaptionContainer doc with
        | Some container =>
            narrowObserverAttached w' = true
            /\ observer (state w') = ContainerObserver container
        | None =>
            narrowObserverAttached w' = false
            /\ observer (state w') = observer (state w)
        end)
  /\ (Some newId = meetingId (state w) -> w' = w).
Proof.
  intros newId w'. unfold w', handleNavigation. fold newId. split.
  - intros Hne. rewrite bool_decide_eq_false_2 by exact Hne.
    unfold tryNarrowObserver. simpl.
    destruct (getCaptionContainer doc); simpl; auto 10.
  - intros Heq. rewrite bool_decide_eq_true_2 by exact Heq. reflexivity.
Qed.

Lemma meeting_change_resets_witness :
  let region := mkRegion "Ann Hello" (Element []) in
  let w := mkPage (mkState [mkEntry "10:00:00" "Ann" "Hello"] {["Ann" := "Hello"]}
                     BodyObserver false (Some "abc-defg-hij"))
                  true
                  (mkStorage (Some [mkEntry "10:00:00" "Ann" "Hello"]) (Some "abc-defg-hij")) in
  let w' := handleNavigation "/xyz-uvwx-rst" [region] w in
  (transcript (state w') = []
   /\ lastBySpeaker (state w') = ∅
   /\ meetingId (state w') = Some "xyz-uvwx-rst"
   /\ storage w' = mkStorage None None
   /\ narrowObserverAttached w' = true
   /\ observer (state w') = ContainerObserver region)
  /\ handleNavigation "/abc-defg-hij" [region] w = w.
Proof.
  cbv zeta. split.
  - apply (proj1 (meeting_change_resets "/xyz-uvwx-rst"
                    [mkRegion "Ann Hello" (Element [])]
                    (mkPage (mkState [mkEntry "10:00:00" "Ann" "Hello"] {["Ann" := "Hello"]}
                               BodyObserver false (Some "abc-defg-hij"))
                            true
                            (mkStorage (Some [mkEntry "10:00:00" "Ann" "Hello"])
                               (Some "abc-defg-hij"))))).
    vm_compute. discriminate.
  - apply (proj2 (meeting_change_resets "/abc-defg-hij"
                    [mkRegion "Ann Hello" (Element [])]
                    (mkPage (mkState [mkEntry "10:00:00" "Ann" "Hello"] {["Ann" := "Hello"]}
                               BodyObserver false (Some "abc-defg-hij"))
                            true
                            (mkStorage (Some [mkEntry "10:00:00" "Ann" "Hello"])
                               (Some "abc-defg-hij"))))).
    reflexivity.
Defined.

(** ** Parser fallback *)

Lemma parseBlock_ill_formed block :
  length (children block) < 2
  \/ Js.trim (Js.collapseWhiteSpace
                (Js.join " " (textContent <$> drop 1 (children block)))) = EmptyString ->
  parseBlock block = None.
Proof.
  intros H. unfold parseBlock.
  destruct (Nat.ltb (length (children block)) 2) eqn:Hlt; [reflexivity |].
  apply Nat.ltb_ge in Hlt.
  destruct H as [H | H]; [lia |].
  destruct (children block) as [| speakerEl others]; [reflexivity |].
  change (drop 1 (speakerEl :: others)) with others in H.
  rewrite H. reflexivity.
Qed.

Lemma parseBlocks_nothing blocks : forall results,
  (forall block, block ∈ blocks -> parseBlock block = None) ->
  parseBlocks blocks results = results.
Proof.
  induction blocks as [| block rest IH]; intros results Hall; simpl; [reflexivity |].
  rewrite (Hall block) by apply list_elem_of_here.
  apply IH. intros b Hb. apply Hall. apply list_elem_of_further. exact Hb.
Qed.

(** C9 (fallback law): when every direct child of the caption region has
    fewer than two child elements or an empty normalised text, the parser
    returns the one entry of speaker "System" with the whole text of the
    region, white space collapsed and trimmed, when that text is not empty,
    and no entry when it is. *)
Theorem fallback_law (container : Node) :
  (forall block, block ∈ children container ->
     length (children block) < 2
     \/ Js.trim (Js.collapseWhiteSpace
                   (Js.join " " (textContent <$> drop 1 (children block)))) = EmptyString) ->
  let t := Js.trim (Js.collapseWhiteSpace (textContent container)) in
  (t ≠ EmptyString -> parseCaptions container = [mkParsed "System" t])
  /\ (t = EmptyString -> parseCaptions container = []).
Proof.
  intros Hall t. unfold parseCaptions.
  rewrite parseBlocks_nothing
    by (intros block Hin; apply parseBlock_ill_formed, Hall, Hin).
  simpl. fold t. split.
  - intros Ht. apply truthy_true in Ht. rewrite Ht. reflexivity.
  - intros Ht. apply truthy_false in Ht. rewrite Ht. reflexivity.
Qed.

Lemma fallback_law_witness :
  let container :=
    Element [Element [TextNode " raw"]; TextNode "  stuff "; Element [Element []]] in
  parseCaptions container = [mkParsed "System" "raw stuff"]
  /\ parseCaptions (Element [Element [TextNode "  "]]) = [].
Proof.
  cbv zeta. split.
  - apply (proj1 (fallback_law
             (Element [Element [TextNode " raw"]; TextNode "  stuff "; Element [Element []]])
             ltac:(intros block Hin; left;
                   apply elem_of_cons in Hin; destruct Hin as [-> | Hin];
                   [simpl; lia |];
                   apply list_elem_of_singleton in Hin; subst block; simpl; lia))).
    vm_compute. discriminate.
  - apply (proj2 (fallback_law (Element [Element [TextNode "  "]])
             ltac:(intros block Hin; left;
                   apply list_elem_of_singleton in Hin; subst block; simpl; lia))).
    reflexivity.
Defined.

(** * Further properties of the script *)

(** ** What a pass reports and what it touches *)

Lemma processEntry_unchanged now s e :
  (processEntry now s e).2 = false -> (processEntry now s e).1 = s.
Proof.
  unfold processEntry.
  destruct (negb (Js.truthy (p_text e)) || bool_decide _); simpl;
    [reflexivity | discriminate].
Qed.

Lemma prefix_length p : forall t,
  String.prefix p t = true -> String.length p <= String.length t.
Proof.
  induction p as [| a p IH]; intros t H; simpl; [lia |].
  destruct t as [| b t]; [discriminate |]. simpl in H |- *.
  destruct (Ascii.ascii_dec a b); [| discriminate].
  apply IH in H. lia.
Qed.

Lemma prefix_same_length p : forall t,
  String.prefix p t = true -> String.length p = String.length t -> p = t.
Proof.
  induction p as [| a p IH]; intros t H Hlen.
  - destruct t; [reflexivity | discriminate].
  - destruct t as [| b t]; [discriminate |]. simpl in H, Hlen.
    destruct (Ascii.ascii_dec a b) as [-> |]; [| discriminate].
    f_equal. apply IH; [exact H | lia].
Qed.

Lemma prefix_strict_length p t :
  String.prefix p t = true -> p ≠ t -> String.length p < String.length t.
Proof.
  intros H Hne. pose proof (prefix_length p t H) as Hle.
  destruct (decide (String.length p = String.length t)) as [Heq | Hlt]; [| lia].
  exfalso. apply Hne. apply prefix_same_length; assumption.
Qed.

(** An iteration that is not skipped makes the session grow, unless the
    speaker is named "__proto__". *)
Lemma processEntry_grows now s e :
  p_speaker e ≠ "__proto__" ->
  (processEntry now s e).2 = true -> grows s (processEntry now s e).1.
Proof.
  intros Hk.
  destruct (decide (p_text e = EmptyString)) as [Hempty | Hfull].
  { rewrite processEntry_skip by auto. discriminate. }
  destruct (decide (lastBySpeaker s !! p_speaker e = Some (p_text e))) as [Hsame | Hnew].
  { rewrite processEntry_skip by auto. discriminate. }
  intros _. rewrite processEntry_new by assumption. simpl.
  rewrite setProperty_insert by (left; exact Hk).
  destruct (isContinuation s (p_speaker e) (p_text e)) eqn:Hcont.
  - apply isContinuation_true in Hcont.
    destruct Hcont as (Htruthy & Hpre & front & l & Htr & Hl).
    right. unfold tailLength. simpl.
    rewrite Htr, amendLast_snoc, !last_snoc, !length_app. simpl.
    split; [reflexivity |].
    rewrite Hl, lookup_insert_eq.
    unfold getProperty in Hpre.
    destruct (lastBySpeaker s !! p_speaker e) as [prev |] eqn:Hprev.
    + apply prefix_strict_length; [exact Hpre | congruence].
    + destruct (p_text e); [contradiction | simpl; lia].
  - left. simpl. rewrite length_app. simpl. lia.
Qed.

Lemma grows_trans s1 s2 s3 : grows s1 s2 -> grows s2 s3 -> grows s1 s3.
Proof. unfold grows. intros [H1 | [H1 H1']] [H2 | [H2 H2']]; lia. Qed.

Lemma grows_irrefl s : ~ grows s s.
Proof. unfold grows. lia. Qed.

Lemma reconcileLoop_changed clock entries : forall i s changed,
  (forall e, e ∈ entries -> p_speaker e ≠ "__proto__") ->
  let r := reconcileLoop clock i entries s changed in
  (r.2 = changed /\ r.1 = s) \/ (r.2 = true /\ grows s r.1).
Proof.
  induction entries as [| e rest IH]; intros i s changed Hk; simpl; [left; auto |].
  assert (Hrest : forall e', e' ∈ rest -> p_speaker e' ≠ "__proto__")
    by (intros e' Hin; apply Hk; apply list_elem_of_further; exact Hin).
  pose proof (processEntry_unchanged (clock i) s e) as Hsame.
  pose proof (processEntry_grows (clock i) s e (Hk e (list_elem_of_here _ _))) as Hgrow.
  destruct (processEntry (clock i) s e) as [s1 c]. simpl in Hsame, Hgrow.
  destruct c.
  - specialize (Hgrow eq_refl). rewrite orb_true_r. right.
    destruct (IH (S i) s1 true Hrest) as [[H2 H1] | [H2 H1]].
    + rewrite H1. auto.
    + split; [exact H2 | eapply grows_trans; eassumption].
  - rewrite (Hsame eq_refl), orb_false_r. apply IH. exact Hrest.
Qed.

Lemma grows_scheduleStorageFlush s s' : grows s s' -> grows s (scheduleStorageFlush s').
Proof.
  unfold grows, tailLength.
  rewrite transcript_scheduleStorageFlush, lastBySpeaker_scheduleStorageFlush. auto.
Qed.

(** X1: the flag of a pass is exact when no block is by a speaker named
    "__proto__".  The pass then reports no change exactly when it leaves the
    state as it found it: after a pass that reports a change the transcript
    is longer, or as long with a longer text held for the speaker of its
    last entry. *)
Theorem changed_flag_exact (clock : nat -> string) (entries : list Parsed) (s : State) :
  (forall e, e ∈ entries -> p_speaker e ≠ "__proto__") ->
  let r := reconcile clock entries s in
  (r.2 = false <-> r.1 = s) /\ (r.2 = true <-> grows s r.1).
Proof.
  intros Hk. unfold reconcile.
  pose proof (reconcileLoop_changed clock entries 0 s false Hk) as H. simpl in H.
  destruct (reconcileLoop clock 0 entries s false) as [s' c]. simpl in H |- *.
  destruct H as [[-> ->] | [-> Hg]].
  - split; split; try discriminate; auto.
    intros Hg. exfalso. exact (grows_irrefl s Hg).
  - apply grows_scheduleStorageFlush in Hg.
    split; split; try discriminate; auto.
    intros Heq. rewrite Heq in Hg. exfalso. exact (grows_irrefl s Hg).
Qed.

Lemma changed_flag_exact_witness :
  let s := mkState [mkEntry "10:00:00" "toString" "Hello"] ∅
             NoObserver false (Some "abc-defg-hij") in
  let r := reconcile (fun _ => "10:00:05") [mkParsed "toString" "Hello there"] s in
  (r.2 = false <-> r.1 = s) /\ (r.2 = true <-> grows s r.1).
Proof.
  apply (changed_flag_exact (fun _ => "10:00:05") [mkParsed "toString" "Hello there"]
           (mkState [mkEntry "10:00:00" "toString" "Hello"] ∅
              NoObserver false (Some "abc-defg-hij"))).
  intros e He. apply list_elem_of_singleton in He. subst e. discriminate.
Defined.

Lemma frame_fields_processEntry now s e :
  let s' := (processEntry now s e).1 in
  observer s' = observer s /\ meetingId s' = meetingId s
  /\ storageFlushTimer s' = storageFlushTimer s.
Proof.
  unfold processEntry.
  destruct (negb (Js.truthy (p_text e)) || bool_decide _); simpl; auto.
Qed.

Lemma frame_fields_reconcileLoop clock entries : forall i s changed,
  let s' := (reconcileLoop clock i entries s changed).1 in
  observer s' = observer s /\ meetingId s' = meetingId s
  /\ storageFlushTimer s' = storageFlushTimer s.
Proof.
  induction entries as [| e rest IH]; intros i s changed; simpl; [auto |].
  pose proof (frame_fields_processEntry (clock i) s e) as Hstep.
  destruct (processEntry (clock i) s e) as [s1 c]. simpl in Hstep.
  destruct Hstep as (Ho & Hm & Ht).
  destruct (IH (S i) s1 (changed || c)) as (Ho' & Hm' & Ht').
  repeat split; congruence.
Qed.

(** X2: a pass touches the transcript, the remembered texts and the flush
    timer only: the observer and the meeting id are as before, and the
    flush timer is armed after the pass exactly when it was armed before or
    the pass reports a change. *)
Theorem reconcile_schedules_flush (clock : nat -> string) (entries : list Parsed)
    (s : State) :
  let r := reconcile clock entries s in
  observer r.1 = observer s
  /\ meetingId r.1 = meetingId s
  /\ storageFlushTimer r.1 = storageFlushTimer s || r.2.
Proof.
  unfold reconcile.
  pose proof (frame_fields_reconcileLoop clock entries 0 s false) as H.
  destruct (reconcileLoop clock 0 entries s false) as [s' c]. simpl in H |- *.
  destruct H as (Ho & Hm & Ht).
  destruct c; simpl.
  - unfold scheduleStorageFlush. rewrite Ht.
    destruct (storageFlushTimer s) eqn:Hs; simpl; auto.
  - rewrite orb_false_r. auto.
Qed.

Lemma length_processEntry now s e :
  length (transcript (processEntry now s e).1) <= length (transcript s) + 1.
Proof.
  unfold processEntry.
  destruct (negb (Js.truthy (p_text e)) || bool_decide _); simpl; [lia |].
  destruct (isContinuation s (p_speaker e) (p_text e)).
  - unfold amendLast. rewrite length_alter. lia.
  - rewrite length_app. simpl. lia.
Qed.

Lemma length_reconcileLoop clock entries : forall i s changed,
  length (transcript (reconcileLoop clock i entries s changed).1)
  <= length (transcript s) + length entries.
Proof.
  induction entries as [| e rest IH]; intros i s changed; simpl; [lia |].
  pose proof (length_processEntry (clock i) s e) as Hstep.
  destruct (processEntry (clock i) s e) as [s1 c]. simpl in Hstep.
  specialize (IH (S i) s1 (changed || c)). lia.
Qed.

(** X3: a pass adds at most one transcript entry per parsed block. *)
Theorem reconcile_growth_bound (clock : nat -> string) (entries : list Parsed) (s : State) :
  length (transcript s) <= length (transcript (reconcile clock entries s).1)
  /\ length (transcript (reconcile clock entries s).1)
     <= length (transcript s) + length entries.
Proof.
  split.
  - apply (frame_reconcile clock entries s).
  - rewrite transcript_reconcile. apply length_reconcileLoop.
Qed.

Lemma reconcileLoop_first_utterances clock entries : forall i s changed,
  NoDup (p_speaker <$> entries) ->
  (forall e, e ∈ entries ->
     p_text e ≠ EmptyString
     /\ getProperty (lastBySpeaker s) (p_speaker e) = JsUndefined) ->
  let s' := (reconcileLoop clock i entries s changed).1 in
  transcript s' = transcript s ++ stamped clock i entries
  /\ (forall e, e ∈ entries -> lastBySpeaker s' !! p_speaker e = Some (p_text e))
  /\ (forall S, S ∉ p_speaker <$> entries ->
        lastBySpeaker s' !! S = lastBySpeaker s !! S).
Proof.
  induction entries as [| e rest IH]; intros i s changed Hnd Hall; simpl.
  - rewrite app_nil_r. repeat split; auto. intros e He. inversion He.
  - rewrite fmap_cons in Hnd. apply NoDup_cons in Hnd. destruct Hnd as [Hfresh Hnd].
    destruct (Hall e (list_elem_of_here _ _)) as [Ht Hundef].
    destruct (getProperty_undefined _ _ Hundef) as (Hnone & _ & Hk).
    rewrite processEntry_new by (first [assumption | rewrite Hnone; discriminate]).
    rewrite (isContinuation_false s (p_speaker e) (p_text e)) by auto.
    rewrite setProperty_insert by (left; exact Hk).
    set (s1 := set_lastBySpeaker _ _).
    assert (Hall1 : forall e', e' ∈ rest ->
              p_text e' ≠ EmptyString
              /\ getProperty (lastBySpeaker s1) (p_speaker e') = JsUndefined).
    { intros e' Hin. destruct (Hall e' (list_elem_of_further _ _ _ Hin)) as [Ht' Hn'].
      split; [exact Ht' |]. unfold s1. simpl. unfold getProperty.
      rewrite lookup_insert_ne; [exact Hn' |].
      intros Heq. apply Hfresh. rewrite Heq.
      apply list_elem_of_fmap. eauto. }
    destruct (IH (S i) s1 (changed || true) Hnd Hall1) as (Htr & Hin & Hout).
    repeat split.
    + rewrite Htr. unfold s1. simpl. rewrite <- app_assoc. reflexivity.
    + intros e' He'. apply elem_of_cons in He'. destruct He' as [-> | He'].
      * rewrite Hout by exact Hfresh. unfold s1. simpl. apply lookup_insert_eq.
      * apply Hin. exact He'.
    + intros S HS. apply not_elem_of_cons in HS.
      destruct HS as [Hne HS]. rewrite Hout by exact HS.
      unfold s1. simpl. apply lookup_insert_ne. congruence.
Qed.

(** X4: first utterances are recorded as they are.  When the blocks of a
    snapshot have pairwise different speakers, each with a text and each
    with [lastBySpeaker[speaker]] undefined (as right after the start
    without restore, after [clear] or after a change of meeting, for
    speakers not named like a member of [Object.prototype]), the pass
    appends one entry per block, in block order, each with the time of its
    iteration, and remembers each text. *)
Theorem first_utterances_appended (clock : nat -> string) (entries : list Parsed)
    (s : State) :
  NoDup (p_speaker <$> entries) ->
  (forall e, e ∈ entries ->
     p_text e ≠ EmptyString
     /\ getProperty (lastBySpeaker s) (p_speaker e) = JsUndefined) ->
  let s' := (reconcile clock entries s).1 in
  transcript s' = transcript s ++ stamped clock 0 entries
  /\ (forall e, e ∈ entries -> lastBySpeaker s' !! p_speaker e = Some (p_text e)).
Proof.
  intros Hnd Hall s'. unfold s'.
  rewrite transcript_reconcile, lastBySpeaker_reconcile.
  destruct (reconcileLoop_first_utterances clock entries 0 s false Hnd Hall)
    as (Htr & Hin & _).
  split; assumption.
Qed.

Lemma first_utterances_appended_witness :
  let clock := fun i : nat => if Nat.eqb i 0 then "10:00:00" else "10:00:01" in
  let entries := [mkParsed "Ann" "Hello"; mkParsed "Bob" "Hi Ann"] in
  let s' := (reconcile clock entries (state (onClear (mkPage
               (mkState [mkEntry "09:00:00" "Ann" "Hello"] {["Ann" := "Hello"]}
                  NoObserver false (Some "abc-defg-hij"))
               true (mkStorage None None))))).1 in
  transcript s' = [] ++ stamped clock 0 entries
  /\ (forall e, e ∈ entries -> lastBySpeaker s' !! p_speaker e = Some (p_text e)).
Proof.
  apply (first_utterances_appended
           (fun i : nat => if Nat.eqb i 0 then "10:00:00" else "10:00:01")
           [mkParsed "Ann" "Hello"; mkParsed "Bob" "Hi Ann"]).
  - apply NoDup_cons. split.
    + intros Hin. apply list_elem_of_singleton in Hin. discriminate Hin.
    + apply NoDup_singleton.
  - intros e Hin. apply elem_of_cons in Hin. destruct Hin as [-> | Hin].
    + split; [discriminate | reflexivity].
    + apply list_elem_of_singleton in Hin. subst e.
      split; [discriminate | reflexivity].
Defined.

Lemma noEmptyText_processEntry now s e :
  noEmptyText (transcript s) -> noEmptyText (transcript (processEntry now s e).1).
Proof.
  intros Hok.
  destruct (decide (p_text e = EmptyString)) as [Hempty | Hfull].
  { rewrite processEntry_skip by auto. exact Hok. }
  destruct (decide (lastBySpeaker s !! p_speaker e = Some (p_text e))) as [Hsame | Hnew].
  { rewrite processEntry_skip by auto. exact Hok. }
  rewrite processEntry_new by assumption. simpl.
  destruct (isContinuation s (p_speaker e) (p_text e)) eqn:Hcont.
  - apply isContinuation_true in Hcont.
    destruct Hcont as (_ & _ & front & l & Htr & _).
    rewrite Htr in Hok |- *. rewrite amendLast_snoc.
    unfold noEmptyText in *. apply Forall_app in Hok. destruct Hok as [Hfront _].
    apply Forall_app. split; [exact Hfront |]. apply Forall_singleton. exact Hfull.
  - unfold noEmptyText in *. apply Forall_app. split; [exact Hok |].
    apply Forall_singleton. exact Hfull.
Qed.

Lemma noEmptyText_reconcile clock entries s :
  noEmptyText (transcript s) -> noEmptyText (transcript (reconcile clock entries s).1).
Proof.
  rewrite transcript_reconcile. generalize 0 false. revert s.
  induction entries as [| e rest IH]; intros s i changed Hok; simpl; [exact Hok |].
  pose proof (noEmptyText_processEntry (clock i) s e Hok) as Hstep.
  destruct (processEntry (clock i) s e) as [s1 c]. apply IH. exact Hstep.
Qed.

Lemma noEmptyText_handle w ev :
  noEmptyText (transcript (state w)) -> noEmptyText (transcript (state (handle w ev))).
Proof.
  intros Hok. destruct ev as [clock entries | clock doc | doc | pathname doc | |]; simpl.
  - apply noEmptyText_reconcile. exact Hok.
  - unfold processCaptions. destruct (getCaptionContainer doc); [| exact Hok].
    apply noEmptyText_reconcile. exact Hok.
  - unfold onBodyMutation. destruct (observer (state w)); try exact Hok.
    rewrite transcript_tryNarrowObserver. exact Hok.
  - unfold handleNavigation.
    destruct (bool_decide (Some (getMeetingId pathname) = meetingId (state w)));
      [exact Hok |].
    rewrite transcript_tryNarrowObserver. apply Forall_nil_2.
  - apply Forall_nil_2.
  - unfold onStorageFlushTimer. destruct (storageFlushTimer (state w)); exact Hok.
Qed.

Lemma transcript_startup pathname doc stored :
  transcript (state (startup pathname doc stored)) = []
  \/ current_meeting_transcript stored
     = Some (transcript (state (startup pathname doc stored)))
     /\ current_meeting_id stored = Some (getMeetingId pathname).
Proof.
  unfold startup, onStorageRead.
  set (w := init _ _ _).
  assert (Hw : transcript (state w) = [])
    by (unfold w, init; rewrite transcript_tryNarrowObserver; reflexivity).
  assert (Hid : meetingId (state w) = Some (getMeetingId pathname)).
  { unfold w, init, tryNarrowObserver. simpl.
    destruct (getCaptionContainer doc); reflexivity. }
  rewrite Hid.
  destruct (current_meeting_id stored) as [i |]; [| left; exact Hw].
  destruct (current_meeting_transcript stored) as [tr |]; [| left; exact Hw].
  destruct (bool_decide (i = getMeetingId pathname)) eqn:Hi; [| left; exact Hw].
  apply bool_decide_eq_true in Hi. right. simpl. split; congruence.
Qed.

(** X5: the transcript never holds an empty line.  When the transcript
    kept in the storage, if any, has no entry with an empty text, no state
    reached from the start of the script has one. *)
Theorem transcript_texts_not_empty (pathname : string) (doc : Document)
    (stored : Storage) (evs : list Event) :
  (forall tr, current_meeting_transcript stored = Some tr -> noEmptyText tr) ->
  noEmptyText (transcript (state (run (startup pathname doc stored) evs))).
Proof.
  intros Hstored.
  assert (H0 : noEmptyText (transcript (state (startup pathname doc stored)))).
  { destruct (transcript_startup pathname doc stored) as [-> | [Htr _]].
    - apply Forall_nil_2.
    - apply Hstored. exact Htr. }
  generalize dependent (startup pathname doc stored). clear Hstored.
  induction evs as [| ev rest IH]; intros w Hw; simpl; [exact Hw |].
  apply IH, noEmptyText_handle, Hw.
Qed.

Lemma transcript_texts_not_empty_witness :
  noEmptyText (transcript (state (run
    (startup "/abc-defg-hij" []
       (mkStorage (Some [mkEntry "09:59:00" "Ann" "Hi"]) (Some "abc-defg-hij")))
    [EvReconcile (fun _ => "10:00:00") [mkParsed "Bob" ""; mkParsed "Ann" "Hi there"]]))).
Proof.
  apply (transcript_texts_not_empty "/abc-defg-hij" []
           (mkStorage (Some [mkEntry "09:59:00" "Ann" "Hi"]) (Some "abc-defg-hij"))
           [EvReconcile (fun _ => "10:00:00")
              [mkParsed "Bob" ""; mkParsed "Ann" "Hi there"]]).
  intros tr [= <-]. apply Forall_singleton. discriminate.
Defined.

(** ** White space *)

Lemma singleSpaced_collapseFrom s : forall b, singleSpaced b (Js.collapseFrom b s) = true.
Proof.
  induction s as [| c r IH]; intros b; simpl; [reflexivity |].
  destruct (Js.isWhiteSpace c) eqn:Hc.
  - destruct b; [apply IH |]. simpl. rewrite IH. reflexivity.
  - simpl. rewrite Hc. apply IH.
Qed.

Lemma singleSpaced_weaken s : singleSpaced true s = true -> singleSpaced false s = true.
Proof.
  destruct s as [| c r]; simpl; [reflexivity |].
  destruct (Js.isWhiteSpace c); [| auto].
  rewrite andb_false_r. discriminate.
Qed.

Lemma singleSpaced_trimStart s : forall b,
  singleSpaced b s = true -> singleSpaced true (Js.trimStart s) = true.
Proof.
  induction s as [| c r IH]; intros b H; simpl in *; [reflexivity |].
  destruct (Js.isWhiteSpace c) eqn:Hc.
  - apply andb_true_iff in H. destruct H as [_ H]. apply (IH true H).
  - simpl. rewrite Hc. exact H.
Qed.

Lemma singleSpaced_trimEnd s : forall b,
  singleSpaced b s = true -> singleSpaced b (Js.trimEnd s) = true.
Proof.
  induction s as [| c r IH]; intros b H; simpl in *; [reflexivity |].
  destruct (Js.isWhiteSpace c) eqn:Hc.
  - apply andb_true_iff in H. destruct H as [Hhead H].
    specialize (IH true H).
    destruct (Js.trimEnd r) as [| c' r']; [reflexivity |].
    simpl in *. rewrite Hc, Hhead. exact IH.
  - specialize (IH false H).
    destruct (Js.trimEnd r) as [| c' r']; simpl in *; rewrite Hc; [reflexivity | exact IH].
Qed.

Lemma endsWithWhiteSpace_trimEnd s : endsWithWhiteSpace (Js.trimEnd s) = false.
Proof.
  induction s as [| c r IH]; simpl; [reflexivity |].
  destruct (Js.trimEnd r) as [| c' r'].
  - destruct (Js.isWhiteSpace c) eqn:Hc; simpl; [reflexivity | exact Hc].
  - exact IH.
Qed.

Lemma normalised_trim_collapse s : normalised (Js.trim (Js.collapseWhiteSpace s)).
Proof.
  split.
  - unfold Js.trim. apply singleSpaced_trimEnd.
    apply (singleSpaced_trimStart _ false), singleSpaced_collapseFrom.
  - apply endsWithWhiteSpace_trimEnd.
Qed.

Lemma collapseFrom_fixed t : forall b, singleSpaced b t = true -> Js.collapseFrom b t = t.
Proof.
  induction t as [| c r IH]; intros b H; simpl in *; [reflexivity |].
  destruct (Js.isWhiteSpace c) eqn:Hc.
  - apply andb_true_iff in H. destruct H as [Hhead H].
    apply andb_true_iff in Hhead. destruct Hhead as [Hsp Hb].
    apply bool_decide_eq_true in Hsp. apply negb_true_iff in Hb. subst b c.
    rewrite (IH true H). reflexivity.
  - rewrite (IH false H). reflexivity.
Qed.

Lemma trimEnd_fixed t : endsWithWhiteSpace t = false -> Js.trimEnd t = t.
Proof.
  induction t as [| c r IH]; intros H; simpl in *; [reflexivity |].
  destruct r as [| c' r'].
  - simpl. rewrite H. reflexivity.
  - rewrite (IH H). reflexivity.
Qed.

Lemma trimStart_fixed t : singleSpaced true t = true -> Js.trimStart t = t.
Proof.
  destruct t as [| c r]; simpl; [reflexivity |].
  destruct (Js.isWhiteSpace c); [| reflexivity].
  rewrite andb_false_r. discriminate.
Qed.

(** X6: the normalisation of the parser, white space collapsed and ends
    trimmed, yields words separated by single spaces, without white space
    at either end, and is idempotent. *)
Theorem normalisation_idempotent (s : string) :
  let t := Js.trim (Js.collapseWhiteSpace s) in
  normalised t /\ Js.trim (Js.collapseWhiteSpace t) = t.
Proof.
  intros t. pose proof (normalised_trim_collapse s) as Hn. fold t in Hn.
  split; [exact Hn |]. destruct Hn as [Hss Hend].
  unfold Js.collapseWhiteSpace at 1.
  rewrite collapseFrom_fixed by (apply singleSpaced_weaken; exact Hss).
  unfold Js.trim. rewrite trimStart_fixed by exact Hss.
  apply trimEnd_fixed. exact Hend.
Qed.

(** ** The parser *)

Lemma parseBlocks_omap blocks : forall results,
  parseBlocks blocks results = results ++ omap parseBlock blocks.
Proof.
  induction blocks as [| block rest IH]; intros results; simpl.
  - rewrite app_nil_r. reflexivity.
  - rewrite IH. destruct (parseBlock block) as [e |]; [| reflexivity].
    rewrite <- app_assoc. reflexivity.
Qed.

Lemma parseCaptions_omap container :
  parseCaptions container
  = match omap parseBlock (children container) with
    | [] => systemFallback container
    | e :: es => e :: es
    end.
Proof.
  unfold parseCaptions, systemFallback. rewrite parseBlocks_omap. simpl.
  destruct (omap parseBlock (children container)) as [| e es]; simpl; [| reflexivity].
  destruct (Js.truthy _); reflexivity.
Qed.

Lemma omap_length_le {A B} (f : A -> option B) (l : list A) :
  length (omap f l) <= length l.
Proof.
  induction l as [| a l IH]; [reflexivity |].
  change (omap f (a :: l))
    with (match f a with Some y => y :: omap f l | None => omap f l end).
  destruct (f a); simpl; lia.
Qed.

(** X7: the parser returns the entries of the blocks that yield one, in
    block order, and the fallback entry only when no block yields one; it
    never returns more entries than the larger of one and the number of
    blocks. *)
Theorem parseCaptions_in_block_order (container : Node) :
  parseCaptions container
  = match omap parseBlock (children container) with
    | [] => systemFallback container
    | e :: es => e :: es
    end
  /\ length (parseCaptions container) <= Nat.max 1 (length (children container)).
Proof.
  split; [apply parseCaptions_omap |].
  rewrite parseCaptions_omap.
  pose proof (omap_length_le parseBlock (children container)) as Hlen.
  destruct (omap parseBlock (children container)) as [| e es].
  - unfold systemFallback. destruct (Js.truthy _); simpl; lia.
  - lia.
Qed.

Lemma parseBlock_Some block e :
  parseBlock block = Some e ->
  p_speaker e ≠ EmptyString /\ p_text e ≠ EmptyString /\ normalised (p_text e).
Proof.
  unfold parseBlock.
  destruct (Nat.ltb (length (children block)) 2); [discriminate |].
  destruct (children block) as [| speakerEl others]; [discriminate |].
  set (txt := Js.trim (Js.collapseWhiteSpace _)).
  destruct (Js.truthy txt) eqn:Ht; [| discriminate].
  intros [= <-]. simpl. repeat split.
  - destruct (Js.truthy (Js.trim (textContent speakerEl))) eqn:Hs.
    + apply truthy_true. exact Hs.
    + discriminate.
  - apply truthy_true. exact Ht.
  - apply normalised_trim_collapse.
  - apply normalised_trim_collapse.
Qed.

(** X8: every entry the parser returns has a speaker name that is not
    empty and a text that is not empty and is made of words separated by
    single spaces, so the loop never meets an empty text from the parser. *)
Theorem parseCaptions_entries_well_formed (container : Node) (e : Parsed) :
  e ∈ parseCaptions container ->
  p_speaker e ≠ EmptyString /\ p_text e ≠ EmptyString /\ normalised (p_text e).
Proof.
  rewrite parseCaptions_omap. intros Hin.
  assert (Hblocks : e ∈ omap parseBlock (children container) ->
            p_speaker e ≠ EmptyString /\ p_text e ≠ EmptyString /\ normalised (p_text e)).
  { intros H. apply list_elem_of_omap in H. destruct H as (block & _ & Hb).
    apply (parseBlock_Some block e Hb). }
  destruct (omap parseBlock (children container)) as [| e0 es] eqn:Hom.
  - unfold systemFallback in Hin.
    destruct (Js.truthy (Js.trim (Js.collapseWhiteSpace (textContent container)))) eqn:Ht.
    + apply list_elem_of_singleton in Hin. subst e. simpl. repeat split.
      * discriminate.
      * apply truthy_true. exact Ht.
      * apply normalised_trim_collapse.
      * apply normalised_trim_collapse.
    + inversion Hin.
  - apply Hblocks. exact Hin.
Qed.

Lemma parseCaptions_entries_well_formed_witness :
  let e := mkParsed "Unknown" "Hey you" in
  p_speaker e ≠ EmptyString /\ p_text e ≠ EmptyString /\ normalised (p_text e).
Proof.
  apply (parseCaptions_entries_well_formed
           (Element [Element [Element [TextNode "  "];
                              Element [TextNode " Hey"]; Element [TextNode "you  "]]])
           (mkParsed "Unknown" "Hey you")).
  vm_compute. apply list_elem_of_here.
Defined.

(** ** The caption container *)

Lemma nonblank_test el :
  Js.truthy (innerText el) && Nat.ltb 0 (String.length (Js.trim (innerText el))) = true
  <-> ~ blank el.
Proof.
  unfold blank. split.
  - rewrite andb_true_iff. intros [_ Hlen] Hb. rewrite Hb in Hlen. discriminate.
  - intros Hnb. apply andb_true_iff. split.
    + apply truthy_true. intros He. apply Hnb. rewrite He. reflexivity.
    + destruct (Js.trim (innerText el)); [contradiction | reflexivity].
Qed.

(** X9: the caption container is the first live region of the document
    whose rendered text is not blank: the regions before it are all blank,
    and there is no container exactly when every live region is blank. *)
Theorem getCaptionContainer_first_nonblank (doc : Document) :
  match getCaptionContainer doc with
  | Some el =>
      exists before after,
        doc = before ++ el :: after /\ ~ blank el /\ Forall blank before
  | None => Forall blank doc
  end.
Proof.
  unfold getCaptionContainer.
  induction doc as [| el rest IH]; simpl; [apply Forall_nil_2 |].
  destruct (Js.truthy (innerText el)
            && Nat.ltb 0 (String.length (Js.trim (innerText el)))) eqn:Htest.
  - exists [], rest. repeat split; [| apply Forall_nil_2].
    apply nonblank_test. exact Htest.
  - assert (Hb : blank el).
    { destruct (decide (blank el)) as [Hb | Hnb]; [exact Hb |].
      apply nonblank_test in Hnb. congruence. }
    destruct (find _ rest) as [found |].
    + destruct IH as (before & after & -> & Hnb & Hall).
      exists (el :: before), after. repeat split; auto.
    + apply Forall_cons. split; assumption.
Qed.

(** ** Observer lifecycle *)

Lemma getCaptionContainer_nonblank doc el :
  getCaptionContainer doc = Some el -> ~ blank el.
Proof.
  unfold getCaptionContainer. intros H. apply find_some in H.
  apply nonblank_test. apply H.
Qed.

Lemma latchSound_tryNarrowObserver doc w : latchSound w -> latchSound (tryNarrowObserver doc w).
Proof.
  intros Hs. unfold tryNarrowObserver.
  destruct (narrowObserverAttached w) eqn:Hlatch; [exact Hs |].
  destruct (getCaptionContainer doc) as [el |] eqn:Hc; [| exact Hs].
  split; simpl; [discriminate |].
  intros _. exists el. split; [reflexivity |].
  apply (getCaptionContainer_nonblank doc). exact Hc.
Qed.

Lemma latchSound_same w w' :
  observer (state w') = observer (state w) ->
  narrowObserverAttached w' = narrowObserverAttached w ->
  latchSound w -> latchSound w'.
Proof. unfold latchSound. intros -> ->. auto. Qed.

Lemma observer_reconcile clock entries s :
  observer (reconcile clock entries s).1 = observer s.
Proof.
  unfold reconcile.
  pose proof (frame_fields_reconcileLoop clock entries 0 s false) as H.
  destruct (reconcileLoop clock 0 entries s false) as [s' c]. simpl in H |- *.
  destruct H as (Ho & _ & _).
  destruct c; [| exact Ho].
  unfold scheduleStorageFlush. destruct (storageFlushTimer s'); exact Ho.
Qed.

Lemma meetingId_reconcile clock entries s :
  meetingId (reconcile clock entries s).1 = meetingId s.
Proof.
  unfold reconcile.
  pose proof (frame_fields_reconcileLoop clock entries 0 s false) as H.
  destruct (reconcileLoop clock 0 entries s false) as [s' c]. simpl in H |- *.
  destruct H as (_ & Hm & _).
  destruct c; [| exact Hm].
  unfold scheduleStorageFlush. destruct (storageFlushTimer s'); exact Hm.
Qed.

Lemma observer_processCaptions clock doc s :
  observer (processCaptions clock doc s) = observer s.
Proof.
  unfold processCaptions. destruct (getCaptionContainer doc); [| reflexivity].
  apply observer_reconcile.
Qed.

Lemma meetingId_processCaptions clock doc s :
  meetingId (processCaptions clock doc s) = meetingId s.
Proof.
  unfold processCaptions. destruct (getCaptionContainer doc); [| reflexivity].
  apply meetingId_reconcile.
Qed.

Lemma latchSound_handle w ev : latchSound w -> latchSound (handle w ev).
Proof.
  intros Hs. destruct ev as [clock entries | clock doc | doc | pathname doc | |]; simpl.
  - apply (latchSound_same w); [apply observer_reconcile | reflexivity | exact Hs].
  - apply (latchSound_same w); [apply observer_processCaptions | reflexivity | exact Hs].
  - unfold onBodyMutation. destruct (observer (state w)); try exact Hs.
    apply latchSound_tryNarrowObserver. exact Hs.
  - unfold handleNavigation.
    destruct (bool_decide (Some (getMeetingId pathname) = meetingId (state w)));
      [exact Hs |].
    apply latchSound_tryNarrowObserver. split; simpl; [apply Hs | discriminate].
  - exact Hs.
  - unfold onStorageFlushTimer. destruct (storageFlushTimer (state w)); exact Hs.
Qed.

Lemma latchSound_startup pathname doc stored : latchSound (startup pathname doc stored).
Proof.
  unfold startup.
  assert (Hi : latchSound (init pathname doc (mkPage initialState false stored))).
  { unfold init. apply latchSound_tryNarrowObserver. split; simpl; discriminate. }
  revert Hi. generalize (init pathname doc (mkPage initialState false stored)).
  intros w Hw. unfold onStorageRead.
  destruct (current_meeting_id stored); [| exact Hw].
  destruct (meetingId (state w)); [| exact Hw].
  destruct (current_meeting_transcript stored); [| exact Hw].
  destruct (bool_decide _); exact Hw.
Qed.

(** X10: in every state reached from the start of the script an observer
    is installed, and the narrowing latch is set only while the observer
    watches a caption container, one whose rendered text was not blank when
    it was chosen; with the latch set, a further narrowing attempt does
    nothing. *)
Theorem latch_means_narrowed (pathname : string) (doc : Document) (stored : Storage)
    (evs : list Event) (doc' : Document) :
  let w := run (startup pathname doc stored) evs in
  latchSound w
  /\ (if narrowObserverAttached w then tryNarrowObserver doc' w = w
      else match getCaptionContainer doc' with
           | Some container =>
               observer (state (tryNarrowObserver doc' w)) = ContainerObserver container
               /\ narrowObserverAttached (tryNarrowObserver doc' w) = true
           | None => tryNarrowObserver doc' w = w
           end).
Proof.
  intros w. split.
  - unfold w. generalize (latchSound_startup pathname doc stored).
    generalize (startup pathname doc stored).
    induction evs as [| ev rest IH]; intros w0 H0; simpl; [exact H0 |].
    apply IH, latchSound_handle, H0.
  - unfold tryNarrowObserver. destruct (narrowObserverAttached w); [reflexivity |].
    destruct (getCaptionContainer doc'); simpl; auto.
Qed.

Lemma observer_kept_handle w ev :
  observer (state w) ≠ BodyObserver ->
  sameMeeting w ev ->
  observer (state (handle w ev)) = observer (state w)
  /\ narrowObserverAttached (handle w ev) = narrowObserverAttached w
  /\ meetingId (state (handle w ev)) = meetingId (state w).
Proof.
  intros Hnb Hsame.
  destruct ev as [clock entries | clock doc | doc | pathname doc | |]; simpl.
  - rewrite observer_reconcile, meetingId_reconcile. auto.
  - rewrite observer_processCaptions, meetingId_processCaptions. auto.
  - unfold onBodyMutation. destruct (observer (state w)) eqn:Ho; auto. congruence.
  - unfold handleNavigation. simpl in Hsame.
    rewrite bool_decide_eq_true_2 by exact Hsame. auto.
  - auto.
  - unfold onStorageFlushTimer. destruct (storageFlushTimer (state w)); auto.
Qed.

(** X11: once the observer of [document.body] has been replaced, only a
    change of meeting changes the observer or the latch.  In particular,
    after a change of meeting found while no caption container is on the
    page, the observer still watches the container of the previous meeting
    and the latch stays clear, whatever appears on the page later. *)
Theorem observer_kept_until_meeting_change (evs : list Event) : forall w : Page,
  observer (state w) ≠ BodyObserver ->
  (forall ev, ev ∈ evs ->
     match ev with
     | EvNavigation pathname _ => Some (getMeetingId pathname) = meetingId (state w)
     | _ => True
     end) ->
  observer (state (run w evs)) = observer (state w)
  /\ narrowObserverAttached (run w evs) = narrowObserverAttached w.
Proof.
  induction evs as [| ev rest IH]; intros w Hnb Hall; simpl; [auto |].
  destruct (observer_kept_handle w ev Hnb) as (Ho & Hl & Hm).
  { apply (Hall ev). apply list_elem_of_here. }
  destruct (IH (handle w ev)) as [Ho' Hl'].
  - rewrite Ho. exact Hnb.
  - intros ev' Hin. rewrite Hm. apply (Hall ev'). apply list_elem_of_further. exact Hin.
  - unfold run in *. split; congruence.
Qed.

Lemma observer_kept_until_meeting_change_witness :
  let old := mkRegion "Ann Hello" (Element []) in
  let new := mkRegion "Bob Hi" (Element []) in
  let w := handleNavigation "/xyz-uvwx-rst" [] (startup "/abc-defg-hij" [old] (mkStorage None None)) in
  let evs := [EvMutation [new]; EvNavigation "/xyz-uvwx-rst" [new];
              EvCaptions (fun _ => "10:00:00") [new]] in
  observer (state w) = ContainerObserver old
  /\ narrowObserverAttached w = false
  /\ observer (state (run w evs)) = observer (state w)
  /\ narrowObserverAttached (run w evs) = narrowObserverAttached w.
Proof.
  cbv zeta. split; [reflexivity |]. split; [reflexivity |].
  apply (observer_kept_until_meeting_change
           [EvMutation [mkRegion "Bob Hi" (Element [])];
            EvNavigation "/xyz-uvwx-rst" [mkRegion "Bob Hi" (Element [])];
            EvCaptions (fun _ => "10:00:00") [mkRegion "Bob Hi" (Element [])]]
           (handleNavigation "/xyz-uvwx-rst" []
              (startup "/abc-defg-hij" [mkRegion "Ann Hello" (Element [])]
                 (mkStorage None None)))).
  - discriminate.
  - intros ev Hin.
    apply elem_of_cons in Hin. destruct Hin as [-> | Hin]; [exact I |].
    apply elem_of_cons in Hin. destruct Hin as [-> | Hin]; [reflexivity |].
    apply list_elem_of_singleton in Hin. subst ev. exact I.
Defined.

(** ** Storage and reload *)

Lemma meetingId_tryNarrowObserver doc w :
  meetingId (state (tryNarrowObserver doc w)) = meetingId (state w).
Proof.
  unfold tryNarrowObserver. destruct (narrowObserverAttached w); [reflexivity |].
  destruct (getCaptionContainer doc); reflexivity.
Qed.

Lemma meetingId_init pathname doc w :
  meetingId (state (init pathname doc w)) = Some (getMeetingId pathname).
Proof. unfold init. rewrite meetingId_tryNarrowObserver. reflexivity. Qed.

Lemma transcript_init pathname doc w :
  transcript (state (init pathname doc w)) = transcript (state w).
Proof. unfold init. rewrite transcript_tryNarrowObserver. reflexivity. Qed.

(** X12: a flushed transcript comes back after a reload of the same
    meeting.  When the flush timer fires, a script started afterwards on a
    path with the same meeting id starts with the flushed transcript, with
    no remembered text. *)
Theorem flush_then_reload (w : Page) (pathname : string) (doc : Document) :
  storageFlushTimer (state w) = true ->
  meetingId (state w) = Some (getMeetingId pathname) ->
  let w' := startup pathname doc (storage (onStorageFlushTimer w)) in
  transcript (state w') = transcript (state w)
  /\ lastBySpeaker (state w') = ∅
  /\ meetingId (state w') = meetingId (state w).
Proof.
  intros Htimer Hid w'. unfold w'.
  split; [| split; [apply lastBySpeaker_startup |]].
  - unfold startup, onStorageRead, onStorageFlushTimer. rewrite Htimer. simpl.
    rewrite meetingId_init, Hid.
    rewrite bool_decide_eq_true_2 by reflexivity. reflexivity.
  - unfold startup, onStorageRead, onStorageFlushTimer. rewrite Htimer. simpl.
    rewrite meetingId_init, Hid.
    rewrite bool_decide_eq_true_2 by reflexivity. simpl.
    apply meetingId_init.
Qed.

Lemma flush_then_reload_witness :
  let w := with_state (reconcile (fun _ => "10:00:00") [mkParsed "Ann" "Hello"]
                         (state (startup "/abc-defg-hij" [] (mkStorage None None)))).1
             (startup "/abc-defg-hij" [] (mkStorage None None)) in
  let w' := startup "/abc-defg-hij/" [] (storage (onStorageFlushTimer w)) in
  transcript (state w') = transcript (state w)
  /\ lastBySpeaker (state w') = ∅
  /\ meetingId (state w') = meetingId (state w).
Proof.
  apply (flush_then_reload
           (with_state (reconcile (fun _ => "10:00:00") [mkParsed "Ann" "Hello"]
                          (state (startup "/abc-defg-hij" [] (mkStorage None None)))).1
              (startup "/abc-defg-hij" [] (mkStorage None None)))
           "/abc-defg-hij/" []);
    reflexivity.
Defined.

(** X13: the script never starts with a transcript stored for another
    meeting: when the stored meeting id is missing or is not the id of the
    current path, the transcript is empty after the start; and whenever a
    transcript is restored it is the stored one. *)
Theorem no_stale_restore (pathname : string) (doc : Document) (stored : Storage) :
  let w := startup pathname doc stored in
  (current_meeting_id stored ≠ Some (getMeetingId pathname) -> transcript (state w) = [])
  /\ (transcript (state w) ≠ [] ->
      current_meeting_transcript stored = Some (transcript (state w))
      /\ current_meeting_id stored = Some (getMeetingId pathname)).
Proof.
  intros w. unfold w.
  destruct (transcript_startup pathname doc stored) as [Hnil | [Htr Hid]].
  - split; [intros _; exact Hnil | intros Hne; contradiction].
  - split; [intros Hne; contradiction | intros _; auto].
Qed.

Lemma no_stale_restore_witness :
  transcript (state (startup "/abc-defg-hij" []
    (mkStorage (Some [mkEntry "09:00:00" "Ann" "Hi"]) (Some "xyz-uvwx-rst")))) = [].
Proof.
  apply (proj1 (no_stale_restore "/abc-defg-hij" []
                  (mkStorage (Some [mkEntry "09:00:00" "Ann" "Hi"]) (Some "xyz-uvwx-rst")))).
  vm_compute. discriminate.
Defined.

Lemma meetingId_handleNavigation pathname doc w :
  meetingId (state (handleNavigation pathname doc w)) = Some (getMeetingId pathname).
Proof.
  unfold handleNavigation.
  destruct (bool_decide (Some (getMeetingId pathname) = meetingId (state w))) eqn:Hd.
  - apply bool_decide_eq_true in Hd. auto.
  - rewrite meetingId_tryNarrowObserver. reflexivity.
Qed.

(** X14: the navigation check resets once per change of meeting: a second
    check on the same path, whatever the page shows by then, changes
    nothing, so the entries recorded between two checks are kept. *)
Theorem navigation_check_stable (pathname : string) (doc1 doc2 : Document) (w : Page)
    (clock : nat -> string) (entries : list Parsed) :
  handleNavigation pathname doc2 (handleNavigation pathname doc1 w)
  = handleNavigation pathname doc1 w
  /\ handle (handle (handleNavigation pathname doc1 w) (EvReconcile clock entries))
       (EvNavigation pathname doc2)
     = handle (handleNavigation pathname doc1 w) (EvReconcile clock entries).
Proof.
  split.
  - unfold handleNavigation at 1.
    rewrite meetingId_handleNavigation.
    rewrite bool_decide_eq_true_2 by reflexivity. reflexivity.
  - simpl. unfold handleNavigation at 1. simpl.
    rewrite meetingId_reconcile, meetingId_handleNavigation.
    rewrite bool_decide_eq_true_2 by reflexivity. reflexivity.
Qed.

(** X15: a cleared transcript stays cleared over a reload: after the
    [clear] request, whether or not a pending flush fires before the page
    goes away, a script started on any path starts with an empty
    transcript. *)
Theorem clear_survives_reload (w : Page) (pathname : string) (doc : Document) :
  transcript (state (startup pathname doc (storage (onClear w)))) = []
  /\ transcript (state (startup pathname doc
                          (storage (onStorageFlushTimer (onClear w))))) = [].
Proof.
  split.
  - destruct (transcript_startup pathname doc (storage (onClear w)))
      as [Hnil | [Htr _]]; [exact Hnil | discriminate Htr].
  - unfold onStorageFlushTimer, onClear. simpl.
    destruct (storageFlushTimer (state w)); simpl.
    + destruct (transcript_startup pathname doc
                  (mkStorage (Some []) (meetingId (state w)))) as [Hnil | [Htr _]];
        [exact Hnil |].
      simpl in Htr. injection Htr as Htr. symmetry. exact Htr.
    + destruct (transcript_startup pathname doc
                  (mkStorage None (current_meeting_id (storage w)))) as [Hnil | [Htr _]];
        [exact Hnil | discriminate Htr].
Qed.

(** X16: a flush that was pending at a change of meeting does not write
    the transcript of the meeting that was left: after the navigation check
    the storage holds nothing, and after the timer fires it holds nothing
    or the empty transcript under the new meeting id. *)
Theorem flush_after_meeting_change (pathname : string) (doc : Document) (w : Page) :
  Some (getMeetingId pathname) ≠ meetingId (state w) ->
  let w1 := handleNavigation pathname doc w in
  storage w1 = mkStorage None None
  /\ storage (onStorageFlushTimer w1)
     = (if storageFlushTimer (state w)
        then mkStorage (Some []) (Some (getMeetingId pathname))
        else mkStorage None None).
Proof.
  intros Hne w1. unfold w1, handleNavigation.
  rewrite bool_decide_eq_false_2 by exact Hne.
  unfold tryNarrowObserver, onStorageFlushTimer. simpl.
  destruct (getCaptionContainer doc); simpl;
    destruct (storageFlushTimer (state w)); simpl; auto.
Qed.

Lemma flush_after_meeting_change_witness :
  let w := mkPage (mkState [mkEntry "10:00:00" "Ann" "Hello"] {["Ann" := "Hello"]}
                     BodyObserver true (Some "abc-defg-hij"))
                  false (mkStorage None None) in
  let w1 := handleNavigation "/xyz-uvwx-rst" [] w in
  storage w1 = mkStorage None None
  /\ storage (onStorageFlushTimer w1) = mkStorage (Some []) (Some "xyz-uvwx-rst").
Proof.
  apply (flush_after_meeting_change "/xyz-uvwx-rst" []
           (mkPage (mkState [mkEntry "10:00:00" "Ann" "Hello"] {["Ann" := "Hello"]}
                      BodyObserver true (Some "abc-defg-hij"))
                   false (mkStorage None None))).
  vm_compute. discriminate.
Defined.

(** ** The meeting id *)

Lemma spanLetters_spec s :
  s = (spanLetters s).1 +:+ (spanLetters s).2
  /\ allLetters (spanLetters s).1 = true
  /\ startsWithLetter (spanLetters s).2 = false.
Proof.
  induction s as [| c r IH]; simpl; [auto |].
  destruct (isLetter c) eqn:Hc.
  - destruct (spanLetters r) as [run rest]. simpl in *.
    destruct IH as (Hr & Hall & Hrest). rewrite Hc.
    split; [change (String c r = String c (run +:+ rest)); f_equal; exact Hr | auto].
  - simpl. rewrite Hc. auto.
Qed.

Lemma spanLetters_app a : forall r,
  allLetters a = true -> startsWithLetter r = false ->
  spanLetters (a +:+ r) = (a, r).
Proof.
  induction a as [| c a IH]; intros r Ha Hr; simpl in *.
  - destruct r as [| c r]; [reflexivity |]. simpl in *. rewrite Hr. reflexivity.
  - apply andb_true_iff in Ha. destruct Ha as [Hc Ha].
    rewrite Hc, (IH r Ha Hr). reflexivity.
Qed.

Lemma matchMeetingCode_code a b c rest :
  codePart a -> codePart b -> codePart c -> startsWithLetter rest = false ->
  matchMeetingCode (a +:+ "-" +:+ b +:+ "-" +:+ c +:+ rest)
  = Some (a +:+ "-" +:+ b +:+ "-" +:+ c).
Proof.
  intros [Ha Hla] [Hb Hlb] [Hc Hlc] Hrest. unfold matchMeetingCode.
  change ("-" +:+ b +:+ "-" +:+ c +:+ rest)
    with (String "-" (b +:+ String "-" (c +:+ rest))).
  rewrite (spanLetters_app a) by (first [assumption | reflexivity]).
  rewrite (proj2 (truthy_true a) Ha). cbn [negb].
  rewrite (spanLetters_app b) by (first [assumption | reflexivity]).
  rewrite (proj2 (truthy_true b) Hb). cbn [negb].
  rewrite (spanLetters_app c) by assumption.
  rewrite (proj2 (truthy_true c) Hc). reflexivity.
Qed.

Lemma findMeetingCode_slash r :
  findMeetingCode (String "/" r)
  = match matchMeetingCode r with
    | Some code => Some code
    | None => findMeetingCode r
    end.
Proof. reflexivity. Qed.

(** X17: the meeting id of a path that begins with a meeting code, three
    runs of letters joined by hyphens, followed by nothing or by something
    that does not begin with a letter, is that code: a trailing slash or a
    sub-path does not change the id. *)
Theorem getMeetingId_of_code (a b c rest : string) :
  codePart a -> codePart b -> codePart c -> startsWithLetter rest = false ->
  getMeetingId ("/" +:+ a +:+ "-" +:+ b +:+ "-" +:+ c +:+ rest)
  = a +:+ "-" +:+ b +:+ "-" +:+ c.
Proof.
  intros Ha Hb Hc Hrest. unfold getMeetingId.
  change ("/" +:+ a +:+ "-" +:+ b +:+ "-" +:+ c +:+ rest)
    with (String "/" (a +:+ "-" +:+ b +:+ "-" +:+ c +:+ rest)).
  rewrite findMeetingCode_slash.
  rewrite (matchMeetingCode_code a b c rest Ha Hb Hc Hrest). reflexivity.
Qed.

Lemma getMeetingId_of_code_witness :
  getMeetingId ("/" +:+ "abc" +:+ "-" +:+ "defg" +:+ "-" +:+ "hij" +:+ "/people")
  = "abc" +:+ "-" +:+ "defg" +:+ "-" +:+ "hij".
Proof.
  apply (getMeetingId_of_code "abc" "defg" "hij" "/people");
    first [reflexivity | split; [discriminate | reflexivity]].
Defined.

Lemma matchMeetingCode_Some s code :
  matchMeetingCode s = Some code ->
  exists a b c rest,
    s = a +:+ "-" +:+ b +:+ "-" +:+ c +:+ rest
    /\ code = a +:+ "-" +:+ b +:+ "-" +:+ c
    /\ codePart a /\ codePart b /\ codePart c
    /\ startsWithLetter rest = false.
Proof.
  unfold matchMeetingCode.
  pose proof (spanLetters_spec s) as (Hs & Hla & _).
  destruct (spanLetters s) as [a r1]. simpl in *.
  destruct (Js.truthy a) eqn:Ha; simpl; [| discriminate].
  destruct r1 as [| h1 r1']; [discriminate |].
  destruct (decide (h1 = "-"%char)) as [-> | Hh1];
    [| destruct h1 as [[] [] [] [] [] [] [] []]; try discriminate; congruence].
  pose proof (spanLetters_spec r1') as (Hs1 & Hlb & _).
  destruct (spanLetters r1') as [b r2]. simpl in *.
  destruct (Js.truthy b) eqn:Hb; simpl; [| discriminate].
  destruct r2 as [| h2 r2']; [discriminate |].
  destruct (decide (h2 = "-"%char)) as [-> | Hh2];
    [| destruct h2 as [[] [] [] [] [] [] [] []]; try discriminate; congruence].
  pose proof (spanLetters_spec r2') as (Hs2 & Hlc & Hrest).
  destruct (spanLetters r2') as [c rest]. simpl in *.
  destruct (Js.truthy c) eqn:Hc; simpl; [| discriminate].
  intros [= <-]. exists a, b, c, rest.
  apply truthy_true in Ha, Hb, Hc.
  repeat split; auto.
  rewrite Hs. f_equal. simpl. f_equal. rewrite Hs1. f_equal. simpl. f_equal. exact Hs2.
Qed.

(** X18: a meeting id is the whole path, or a meeting code that stands in
    the path right after a slash: three runs of letters, none empty, joined
    by hyphens and not followed by a letter. *)
Theorem getMeetingId_shape (pathname : string) :
  getMeetingId pathname = pathname
  \/ exists before a b c rest,
       pathname = before +:+ "/" +:+ a +:+ "-" +:+ b +:+ "-" +:+ c +:+ rest
       /\ getMeetingId pathname = a +:+ "-" +:+ b +:+ "-" +:+ c
       /\ codePart a /\ codePart b /\ codePart c
       /\ startsWithLetter rest = false.
Proof.
  unfold getMeetingId.
  destruct (findMeetingCode pathname) as [code |] eqn:Hfind; [right | left; reflexivity].
  revert Hfind. induction pathname as [| h r IH]; simpl; [discriminate |].
  destruct (bool_decide (h = "/"%char)) eqn:Hh.
  - apply bool_decide_eq_true in Hh. subst h.
    destruct (matchMeetingCode r) as [code' |] eqn:Hm.
    + intros [= <-]. apply matchMeetingCode_Some in Hm.
      destruct Hm as (a & b & c & rest & -> & -> & Hparts).
      exists EmptyString, a, b, c, rest. split; [reflexivity | split; [reflexivity | exact Hparts]].
    + intros Hfind. destruct (IH Hfind) as (before & a & b & c & rest & -> & Hrest).
      exists (String "/" before), a, b, c, rest. split; [reflexivity | exact Hrest].
  - intros Hfind. destruct (IH Hfind) as (before & a & b & c & rest & -> & Hrest).
    exists (String h before), a, b, c, rest. split; [reflexivity | exact Hrest].
Qed.

(** ** Entries only grow *)

Lemma prefix_refl s : String.prefix s s = true.
Proof.
  induction s as [| c r IH]; simpl; [reflexivity |].
  destruct (Ascii.ascii_dec c c); [exact IH | contradiction].
Qed.

Lemma prefix_trans s1 : forall s2 s3,
  String.prefix s1 s2 = true -> String.prefix s2 s3 = true -> String.prefix s1 s3 = true.
Proof.
  induction s1 as [| a s1 IH]; intros s2 s3 H12 H23; [destruct s3; reflexivity |].
  destruct s2 as [| b s2]; [discriminate |].
  destruct s3 as [| c s3]; [discriminate |].
  simpl in *.
  destruct (Ascii.ascii_dec a b) as [-> |]; [| discriminate].
  destruct (Ascii.ascii_dec b c) as [-> |]; [| discriminate].
  eapply IH; eassumption.
Qed.

Lemma textsGrow_refl tr : textsGrow tr tr.
Proof. intros i e He. exists e. repeat split; [exact He | apply prefix_refl]. Qed.

Lemma textsGrow_trans tr1 tr2 tr3 : textsGrow tr1 tr2 -> textsGrow tr2 tr3 -> textsGrow tr1 tr3.
Proof.
  intros H12 H23 i e He.
  destruct (H12 i e He) as (e2 & He2 & Hs2 & Hp2).
  destruct (H23 i e2 He2) as (e3 & He3 & Hs3 & Hp3).
  exists e3. repeat split; [exact He3 | congruence |].
  unfold Js.startsWith in *. eapply prefix_trans; eassumption.
Qed.

Lemma textsGrow_snoc tr x : textsGrow tr (tr ++ [x]).
Proof.
  intros i e He. exists e.
  repeat split; [apply lookup_app_l_Some; exact He | apply prefix_refl].
Qed.

Lemma textsGrow_processEntry now s e :
  coupled s ->
  inheritedProperty (p_speaker e) = JsUndefined ->
  textsGrow (transcript s) (transcript (processEntry now s e).1).
Proof.
  intros Hc Hord.
  destruct (decide (p_text e = EmptyString)) as [Hempty | Hfull].
  { rewrite processEntry_skip by auto. apply textsGrow_refl. }
  destruct (decide (lastBySpeaker s !! p_speaker e = Some (p_text e))) as [Hsame | Hnew].
  { rewrite processEntry_skip by auto. apply textsGrow_refl. }
  rewrite processEntry_new by assumption. simpl.
  destruct (isContinuation s (p_speaker e) (p_text e)) eqn:Hcont; [| apply textsGrow_snoc].
  apply isContinuation_true in Hcont.
  destruct Hcont as (Htruthy & Hpre & front & l & Htr & Hl).
  unfold getProperty in Htruthy, Hpre.
  destruct (lastBySpeaker s !! p_speaker e) as [prev |] eqn:Hprev;
    [| rewrite Hord in Htruthy; discriminate].
  simpl in Hpre.
  destruct (Hc _ _ Hprev) as [_ Hlast].
  rewrite Htr, lastTextOf_snoc, decide_True in Hlast by exact Hl.
  injection Hlast as Hlast.
  rewrite Htr, amendLast_snoc. intros i x Hx.
  destruct (decide (i < length front)) as [Hi | Hi].
  - rewrite lookup_app_l in Hx |- * by exact Hi.
    exists x. repeat split; [exact Hx | apply prefix_refl].
  - rewrite lookup_app_r in Hx |- * by lia.
    destruct (i - length front) as [| k]; [| destruct k; discriminate Hx].
    injection Hx as <-. eexists. split; [reflexivity |]. simpl.
    split; [reflexivity |]. unfold Js.startsWith. rewrite Hlast. exact Hpre.
Qed.

Lemma textsGrow_reconcileLoop clock entries : forall i s changed,
  coupled s ->
  (forall e, e ∈ entries -> inheritedProperty (p_speaker e) = JsUndefined) ->
  textsGrow (transcript s) (transcript (reconcileLoop clock i entries s changed).1).
Proof.
  induction entries as [| e rest IH]; intros i s changed Hc Hord; simpl.
  - apply textsGrow_refl.
  - pose proof (textsGrow_processEntry (clock i) s e Hc
                  (Hord e (list_elem_of_here _ _))) as Hstep.
    pose proof (coupled_processEntry (clock i) s e Hc) as Hc1.
    destruct (processEntry (clock i) s e) as [s1 c]. simpl in Hstep, Hc1.
    eapply textsGrow_trans; [exact Hstep | apply IH; [exact Hc1 |]].
    intros e' Hin. apply Hord. apply list_elem_of_further. exact Hin.
Qed.

(** X19: a recorded line is never shortened or rewritten by a pass whose
    speakers are not named like a member of [Object.prototype].  In every
    state reached from the start of the script, such a pass leaves each
    entry at its index with its speaker and with a text that starts with the
    text it had before the pass. *)
Theorem entries_only_grow (pathname : string) (doc : Document) (stored : Storage)
    (evs : list Event) (clock : nat -> string) (entries : list Parsed)
    (i : nat) (e : TranscriptEntry) :
  let s := state (run (startup pathname doc stored) evs) in
  (forall p, p ∈ entries -> inheritedProperty (p_speaker p) = JsUndefined) ->
  transcript s !! i = Some e ->
  exists e',
    transcript (reconcile clock entries s).1 !! i = Some e'
    /\ speaker e' = speaker e
    /\ Js.startsWith (text e') (text e) = true.
Proof.
  intros s Hord He. rewrite transcript_reconcile.
  apply (textsGrow_reconcileLoop clock entries 0 s false); [| exact Hord | exact He].
  apply coupled_reachable.
Qed.

Lemma entries_only_grow_witness :
  let s := state (run (startup "/abc-defg-hij" [] (mkStorage None None))
                    [EvReconcile (fun _ => "10:00:00") [mkParsed "Ann" "Hi"]]) in
  exists e',
    transcript (reconcile (fun _ => "10:00:01")
                  [mkParsed "Ann" "Hi there"; mkParsed "Bob" "Hey"] s).1 !! 0 = Some e'
    /\ speaker e' = "Ann"
    /\ Js.startsWith (text e') "Hi" = true.
Proof.
  apply (entries_only_grow "/abc-defg-hij" [] (mkStorage None None)
           [EvReconcile (fun _ => "10:00:00") [mkParsed "Ann" "Hi"]]
           (fun _ => "10:00:01") [mkParsed "Ann" "Hi there"; mkParsed "Bob" "Hey"]
           0 (mkEntry "10:00:00" "Ann" "Hi")).
  - intros p Hp. apply elem_of_cons in Hp. destruct Hp as [-> | Hp]; [reflexivity |].
    apply list_elem_of_singleton in Hp. subst p. reflexivity.
  - reflexivity.
Defined.

(** ** The exported text *)

Lemma countLineFeeds_app s1 s2 :
  countLineFeeds (s1 +:+ s2) = countLineFeeds s1 + countLineFeeds s2.
Proof.
  induction s1 as [| c r IH]; simpl; [reflexivity |]. rewrite IH. lia.
Qed.

Lemma singleSpaced_no_lineFeed s : forall b,
  singleSpaced b s = true -> countLineFeeds s = 0.
Proof.
  induction s as [| c r IH]; intros b H; simpl in *; [reflexivity |].
  destruct (Js.isWhiteSpace c) eqn:Hc.
  - apply andb_true_iff in H. destruct H as [Hhead H].
    apply andb_true_iff in Hhead. destruct Hhead as [Hsp _].
    apply bool_decide_eq_true in Hsp. subst c. simpl. apply (IH true H).
  - rewrite (IH false H).
    destruct (Nat.eqb (nat_of_ascii c) 10) eqn:Hlf; [| reflexivity].
    unfold Js.isWhiteSpace in Hc. rewrite Hlf in Hc.
    rewrite !orb_true_r in Hc. simpl in Hc. rewrite ?orb_true_r in Hc. discriminate.
Qed.

Lemma countLineFeeds_formatLine e :
  countLineFeeds (formatLine e)
  = countLineFeeds (ts e) + countLineFeeds (speaker e) + countLineFeeds (text e).
Proof.
  unfold formatLine. rewrite !countLineFeeds_app. simpl. lia.
Qed.

Lemma countLineFeeds_join parts :
  Forall (fun p => countLineFeeds p = 0) parts ->
  countLineFeeds (Js.join lineFeed parts) = length parts - 1.
Proof.
  induction parts as [| p rest IH]; intros Hall; [reflexivity |].
  apply Forall_cons in Hall. destruct Hall as [Hp Hrest].
  destruct rest as [| q rest'].
  - simpl. exact Hp.
  - change (Js.join lineFeed (p :: q :: rest'))
      with (p +:+ lineFeed +:+ Js.join lineFeed (q :: rest')).
    rewrite !countLineFeeds_app, Hp, (IH Hrest). simpl. lia.
Qed.

(** X20: the text shown and downloaded by the popup has one line per
    transcript entry: when no time stamp and no speaker name holds a line
    feed and the texts are normalised, as the parser returns them, the
    formatted transcript of [n] entries holds [n - 1] line feeds. *)
Theorem formatTranscript_one_line_per_entry (tr : list TranscriptEntry) :
  (forall e, e ∈ tr ->
     countLineFeeds (ts e) = 0 /\ countLineFeeds (speaker e) = 0 /\ normalised (text e)) ->
  countLineFeeds (formatTranscript tr) = length tr - 1.
Proof.
  intros Hall. unfold formatTranscript.
  rewrite countLineFeeds_join; [rewrite length_fmap; reflexivity |].
  apply Forall_fmap, Forall_forall. intros e He.
  change (countLineFeeds (formatLine e) = 0).
  destruct (Hall e He) as (Hts & Hsp & [Htx _]).
  rewrite countLineFeeds_formatLine, Hts, Hsp.
  rewrite (singleSpaced_no_lineFeed (text e) true Htx). reflexivity.
Qed.

Lemma formatTranscript_one_line_per_entry_witness :
  countLineFeeds (formatTranscript
    [mkEntry "10:00:00" "Ann" "Hi there"; mkEntry "10:00:04" "Bob" "Hey"]) = 2 - 1.
Proof.
  apply (formatTranscript_one_line_per_entry
           [mkEntry "10:00:00" "Ann" "Hi there"; mkEntry "10:00:04" "Bob" "Hey"]).
  intros e He. apply elem_of_cons in He. destruct He as [-> | He].
  - repeat split.
  - apply list_elem_of_singleton in He. subst e. repeat split.
Defined.
